(** * moleculekit.atomselect.atomselect: the AST evaluator [traverse_ast]

    A shallow embedding of [src/moleculekit/atomselect/atomselect.py].
    The evaluator is ordinary Python over numpy arrays: values are dynamically
    typed, arrays are shared by reference ([analysis["protein"]] is returned as
    the very object stored in the mapping, [mol.coords[:, 0, mol.frame]] is a
    view), and failures are exceptions.  The embedding keeps all three:

    - values are a tagged union [pyval]; arrays live in a [store] and are
      named by a location [loc];
    - the evaluator runs in the monad [Py], which threads the store and
      carries the outcome (a value, a raised exception, or a host behaviour
      this file does not describe);
    - the two collaborators that are not part of the file, [re.match] and
      [within_distance], are section variables. *)

From Stdlib Require Import ZArith Floats.PrimFloat Uint63 Strings.String Strings.Ascii.
From stdpp Require Import base strings gmap list.

Local Open Scope string_scope.
Local Open Scope Z_scope.

(** ** Scalars and arrays *)

(** The element types the evaluator meets: Python/numpy booleans, integers,
    floating-point numbers (IEEE binary64) and strings. *)
Inductive scalar :=
| SBool (b : bool)
| SInt (z : Z)
| SFloat (f : float)
| SStr (s : string).

(** A one-dimensional numpy array, tagged by its element type.  String
    arrays hold Python [str] objects. *)
Inductive ndarray :=
| ABool (l : list bool)
| AInt (l : list Z)
| AFloat (l : list float)
| AStr (l : list string).

Definition alen (a : ndarray) : nat :=
  match a with
  | ABool l => length l
  | AInt l => length l
  | AFloat l => length l
  | AStr l => length l
  end.

Definition elements (a : ndarray) : list scalar :=
  match a with
  | ABool l => SBool <$> l
  | AInt l => SInt <$> l
  | AFloat l => SFloat <$> l
  | AStr l => SStr <$> l
  end.

(** Where an array lives.  [LAttr] and [LAnalysis] are the arrays owned by
    the molecule and by the analysis mapping, [LAxis k] is the view
    [mol.coords[:, k, mol.frame]], [LHeap n] is the [n]-th array allocated
    during evaluation. *)
Inductive loc :=
| LAttr (attr : string)
| LAxis (k : nat)
| LAnalysis (key : string)
| LHeap (n : nat).

(** A Python value as it flows between nodes: a Python scalar, a numpy
    scalar (what [np.abs] and [np.sqrt] give for a scalar argument), a list
    literal, or a reference to an array. *)
Inductive pyval :=
| VPy (x : scalar)
| VNp (x : scalar)
| VList (items : list scalar)
| VArr (l : loc).

Abbreviation VStr s := (VPy (SStr s)).
Abbreviation VInt z := (VPy (SInt z)).
Abbreviation VFloat f := (VPy (SFloat f)).
Abbreviation VBool b := (VPy (SBool b)).

(** ** Exceptions *)

(** The [RuntimeError]s of the source, one constructor per message, with the
    value interpolated in the message. *)
Inductive message :=
| Invalid_molecule_selection (molec : pyval)
| Invalid_molprop (molprop : pyval)
| Invalid_logop (op : pyval)
| Invalid_comparison_op (op : pyval)
| Negative_values_in_sqrt_call (arg : pyval)
| Invalid_function (fn : pyval)
| Invalid_property (prop : pyval)
| Invalid_operation (operation : string).

Inductive exn :=
| RuntimeError (msg : message)
| TypeError
| KeyError (key : pyval)
| IndexError
| ValueError
| AttributeError (attr : string)
| UnboundLocalError (name : string)
| ZeroDivisionError
| OverflowError
| ReError.

(** The outcome of running Python code: a value, an exception, or
    [Unmodelled] where the host (numpy on operand types no selection
    produces) behaves in a way this file does not describe.  Nothing is
    claimed about an [Unmodelled] run. *)
Inductive outcome (A : Type) :=
| Ok (a : A)
| Raise (e : exn)
| Unmodelled.
Arguments Ok {A} a.
Arguments Raise {A} e.
Arguments Unmodelled {A}.

(** ** The molecule, the analysis and the store *)

(** The molecule collaborator: the per-atom arrays that [molpropmap] names,
    the coordinate tensor [coords[atom][axis][frame]] with its number of
    frames, the active frame and the atom count. *)
Record Molecule := {
  serial : ndarray;
  name : ndarray;
  element : ndarray;
  resname : ndarray;
  resid : ndarray;
  insertion : ndarray;
  chain : ndarray;
  segid : ndarray;
  altloc : ndarray;
  masses : ndarray;
  beta : ndarray;
  charge : ndarray;
  coords : list (list (list float));
  numFrames : nat;
  frame : nat;
  numAtoms : nat
}.

(** [getattr(mol, attr)] for the array attributes. *)
Definition getattr (m : Molecule) (attr : string) : option ndarray :=
  if String.eqb attr "serial" then Some (serial m)
  else if String.eqb attr "name" then Some (name m)
  else if String.eqb attr "element" then Some (element m)
  else if String.eqb attr "resname" then Some (resname m)
  else if String.eqb attr "resid" then Some (resid m)
  else if String.eqb attr "insertion" then Some (insertion m)
  else if String.eqb attr "chain" then Some (chain m)
  else if String.eqb attr "segid" then Some (segid m)
  else if String.eqb attr "altloc" then Some (altloc m)
  else if String.eqb attr "masses" then Some (masses m)
  else if String.eqb attr "beta" then Some (beta m)
  else if String.eqb attr "charge" then Some (charge m)
  else None.

(** Writing the elements of an attribute array in place. *)
Definition setattr (m : Molecule) (attr : string) (a : ndarray) : Molecule :=
  let upd (this : string) (old : ndarray) := if String.eqb attr this then a else old in
  {| serial := upd "serial" (serial m);
     name := upd "name" (name m);
     element := upd "element" (element m);
     resname := upd "resname" (resname m);
     resid := upd "resid" (resid m);
     insertion := upd "insertion" (insertion m);
     chain := upd "chain" (chain m);
     segid := upd "segid" (segid m);
     altloc := upd "altloc" (altloc m);
     masses := upd "masses" (masses m);
     beta := upd "beta" (beta m);
     charge := upd "charge" (charge m);
     coords := coords m;
     numFrames := numFrames m;
     frame := frame m;
     numAtoms := numAtoms m |}.

(** The state a run can observe or change: the molecule, the analysis
    mapping, the arrays allocated so far, and a count of the calls made to
    the distance primitive. *)
Record store := {
  mol : Molecule;
  analysis : gmap string ndarray;
  heap : list ndarray;
  wd_calls : nat
}.

Definition Py (A : Type) : Type := store → outcome A * store.

Definition ret {A} (a : A) : Py A := λ s, (Ok a, s).
Definition raise {A} (e : exn) : Py A := λ s, (Raise e, s).
Definition unmodelled {A} : Py A := λ s, (Unmodelled, s).
Definition bind {A B} (c : Py A) (k : A → Py B) : Py B :=
  λ s, match c s with
       | (Ok a, s') => k a s'
       | (Raise e, s') => (Raise e, s')
       | (Unmodelled, s') => (Unmodelled, s')
       end.

Notation "'let*' x ':=' c 'in' k" := (bind c (λ x, k))
  (at level 10, x name, c at level 100, k at level 200).

(** Lifting a pure outcome into [Py]. *)
Definition lift {A} (o : outcome A) : Py A := λ s, (o, s).

(** Pure code that can fail: the same three outcomes, without a store. *)
Definition obind {A B} (o : outcome A) (k : A → outcome B) : outcome B :=
  match o with
  | Ok a => k a
  | Raise e => Raise e
  | Unmodelled => Unmodelled
  end.
Definition omap {A B} (f : A → B) (o : outcome A) : outcome B :=
  obind o (λ a, Ok (f a)).

Notation "'let+' x ':=' o 'in' k" := (obind o (λ x, k))
  (at level 10, x name, o at level 100, k at level 200).

(** ** Reading and writing arrays through a location *)

(** The column [coords[:, k, frame]]. *)
Definition coords_axis (m : Molecule) (k : nat) : option (list float) :=
  mapM (λ row : list (list float), row !! k ≫= (λ fr, fr !! frame m)) (coords m).

(** The slice [coords[:, :, frame]]: one row of three numbers per atom. *)
Definition coords_frame (m : Molecule) : option (list (list float)) :=
  mapM (λ row : list (list float), mapM (λ fr : list float, fr !! frame m) row) (coords m).

Definition read (s : store) (l : loc) : option ndarray :=
  match l with
  | LAttr attr => getattr (mol s) attr
  | LAxis k => AFloat <$> coords_axis (mol s) k
  | LAnalysis key => analysis s !! key
  | LHeap n => heap s !! n
  end.

Definition Z_of_bool (b : bool) : Z := if b then 1 else 0.

(** Conversion of an integer to binary64, rounding to nearest: the cast
    numpy applies to an [int64] and Python's [float(int)].  Defined for the
    [int64] range. *)
Definition float_of_Z (z : Z) : float :=
  if z =? - 2 ^ 63 then (- (of_uint63 (of_Z (2 ^ 62)) * 2))%float
  else if z <? 0 then (- of_uint63 (of_Z (- z)))%float
  else of_uint63 (of_Z z).

Definition in_int64 (z : Z) : bool := (- 2 ^ 63 <=? z) && (z <? 2 ^ 63).

(** Two's-complement wrap-around of [int64] arithmetic. *)
Definition wrap64 (z : Z) : Z := (z + 2 ^ 63) mod 2 ^ 64 - 2 ^ 63.

Definition floats_of (a : ndarray) : option (list float) :=
  match a with
  | ABool l => Some ((λ b, float_of_Z (Z_of_bool b)) <$> l)
  | AInt l => Some (float_of_Z <$> l)
  | AFloat l => Some l
  | AStr _ => None
  end.

(** Storing a column back through the view [coords[:, k, frame]]. *)
Definition set_coords_axis (m : Molecule) (k : nat) (vs : list float) : Molecule :=
  {| serial := serial m; name := name m; element := element m;
     resname := resname m; resid := resid m; insertion := insertion m;
     chain := chain m; segid := segid m; altloc := altloc m;
     masses := masses m; beta := beta m; charge := charge m;
     coords := imap (λ i row,
                       match vs !! i with
                       | Some v => alter (λ fr : list float, <[frame m := v]> fr) k row
                       | None => row
                       end) (coords m);
     numFrames := numFrames m; frame := frame m; numAtoms := numAtoms m |}.

(** Overwriting the elements of the array at a location, in place.  A write
    through [LAttr], [LAxis] or [LAnalysis] changes the molecule or the
    analysis: whoever holds that array sees it. *)
Definition write (l : loc) (a : ndarray) (s : store) : store :=
  match l with
  | LAttr attr =>
      {| mol := setattr (mol s) attr a; analysis := analysis s;
         heap := heap s; wd_calls := wd_calls s |}
  | LAxis k =>
      {| mol := match floats_of a with
                | Some vs => set_coords_axis (mol s) k vs
                | None => mol s
                end;
         analysis := analysis s; heap := heap s; wd_calls := wd_calls s |}
  | LAnalysis key =>
      {| mol := mol s; analysis := <[key := a]> (analysis s);
         heap := heap s; wd_calls := wd_calls s |}
  | LHeap n =>
      {| mol := mol s; analysis := analysis s;
         heap := <[n := a]> (heap s); wd_calls := wd_calls s |}
  end.

(** A location that does not name an array cannot arise from evaluation;
    loading through one is outside the model. *)
Definition load (l : loc) : Py ndarray :=
  λ s, match read s l with
       | Some a => (Ok a, s)
       | None => (Unmodelled, s)
       end.

Definition store_at (l : loc) (a : ndarray) : Py unit :=
  λ s, (Ok tt, write l a s).

(** The store with one more array on the heap. *)
Definition extend (s : store) (a : ndarray) : store :=
  {| mol := mol s; analysis := analysis s;
     heap := heap s ++ [a]; wd_calls := wd_calls s |}.

(** A numpy call that builds a new array: it gets the next free heap
    location. *)
Definition alloc (a : ndarray) : Py loc :=
  λ s, (Ok (LHeap (length (heap s))), extend s a).

(** The store with one more call of the distance primitive on record. *)
Definition counted (s : store) : store :=
  {| mol := mol s; analysis := analysis s;
     heap := heap s; wd_calls := S (wd_calls s) |}.

Definition count_wd_call : Py unit := λ s, (Ok tt, counted s).

Definition get_mol : Py Molecule := λ s, (Ok (mol s), s).

(** ** The host operators

    What Python and numpy compute for the operators and functions the
    evaluator applies.  Arrays are [bool], [int64], [float64] or [str]
    arrays; a scalar that meets an array is broadcast; two Python scalars
    follow Python's own arithmetic. *)

Inductive operand :=
| OPy (x : scalar)
| ONp (x : scalar)
| OArr (a : ndarray)
| OList (items : list scalar).

Inductive nresult :=
| RPy (x : scalar)
| RNp (x : scalar)
| RArr (a : ndarray).

Definition fetch (v : pyval) : Py operand :=
  match v with
  | VPy x => ret (OPy x)
  | VNp x => ret (ONp x)
  | VList items => ret (OList items)
  | VArr l => let* a := load l in ret (OArr a)
  end.

Definition emit (r : nresult) : Py pyval :=
  match r with
  | RPy x => ret (VPy x)
  | RNp x => ret (VNp x)
  | RArr a => let* l := alloc a in ret (VArr l)
  end.

Definition singleton (x : scalar) : ndarray :=
  match x with
  | SBool b => ABool [b]
  | SInt z => AInt [z]
  | SFloat f => AFloat [f]
  | SStr s => AStr [s]
  end.

Definition is_array (o : operand) : bool :=
  match o with OArr _ => true | _ => false end.

(** An operand as numpy sees it.  A Python integer must fit [int64]. *)
Definition as_array (o : operand) : outcome ndarray :=
  match o with
  | OPy (SInt z) => if in_int64 z then Ok (AInt [z]) else Unmodelled
  | OPy x => Ok (singleton x)
  | ONp x => Ok (singleton x)
  | OArr a => Ok a
  | OList _ => Unmodelled
  end.

(** numpy's type promotion for a pair of arrays: [bool < int64 < float64];
    strings only meet strings. *)
Inductive joined :=
| JB (x y : list bool)
| JI (x y : list Z)
| JF (x y : list float)
| JS (x y : list string)
| JMixed.

Definition join (a b : ndarray) : joined :=
  let fb := λ b : bool, float_of_Z (Z_of_bool b) in
  match a, b with
  | ABool x, ABool y => JB x y
  | ABool x, AInt y => JI (Z_of_bool <$> x) y
  | AInt x, ABool y => JI x (Z_of_bool <$> y)
  | AInt x, AInt y => JI x y
  | ABool x, AFloat y => JF (fb <$> x) y
  | AInt x, AFloat y => JF (float_of_Z <$> x) y
  | AFloat x, ABool y => JF x (fb <$> y)
  | AFloat x, AInt y => JF x (float_of_Z <$> y)
  | AFloat x, AFloat y => JF x y
  | AStr x, AStr y => JS x y
  | _, _ => JMixed
  end.

(** Broadcasting of one-dimensional operands: equal lengths pair up, a
    length-one operand is repeated, anything else is a shape error. *)
Definition bzip {A B C} (f : A → B → C) (la : list A) (lb : list B) : outcome (list C) :=
  if Nat.eqb (length la) (length lb) then Ok (zip_with f la lb)
  else match la, lb with
       | [x], _ => Ok (f x <$> lb)
       | _, [y] => Ok ((λ a, f a y) <$> la)
       | _, _ => Raise ValueError
       end.

Inductive binop := Add | Sub | Mul | Div | Mod | Eq | Ne | Lt | Gt | Le | Ge | And | Or.

Definition np_binop (op : binop) (a b : ndarray) : outcome ndarray :=
  match join a b with
  | JB x y =>
      match op with
      | Add | Or => omap ABool (bzip orb x y)
      | Mul | And => omap ABool (bzip andb x y)
      | Sub => Raise TypeError
      | Div => omap AFloat (bzip (λ p q, float_of_Z (Z_of_bool p) / float_of_Z (Z_of_bool q))%float x y)
      | Mod => Unmodelled
      | Eq => omap ABool (bzip Bool.eqb x y)
      | Ne => omap ABool (bzip xorb x y)
      | Lt => omap ABool (bzip (λ p q, negb p && q) x y)
      | Gt => omap ABool (bzip (λ p q, p && negb q) x y)
      | Le => omap ABool (bzip (λ p q, negb p || q) x y)
      | Ge => omap ABool (bzip (λ p q, p || negb q) x y)
      end
  | JI x y =>
      match op with
      | Add => omap AInt (bzip (λ p q, wrap64 (p + q)) x y)
      | Sub => omap AInt (bzip (λ p q, wrap64 (p - q)) x y)
      | Mul => omap AInt (bzip (λ p q, wrap64 (p * q)) x y)
      | Div => omap AFloat (bzip (λ p q, float_of_Z p / float_of_Z q)%float x y)
      | Mod => omap AInt (bzip (λ p q, if q =? 0 then 0 else wrap64 (p mod q)) x y)
      | Eq => omap ABool (bzip Z.eqb x y)
      | Ne => omap ABool (bzip (λ p q, negb (p =? q)) x y)
      | Lt => omap ABool (bzip Z.ltb x y)
      | Gt => omap ABool (bzip Z.gtb x y)
      | Le => omap ABool (bzip Z.leb x y)
      | Ge => omap ABool (bzip Z.geb x y)
      | And => omap AInt (bzip Z.land x y)
      | Or => omap AInt (bzip Z.lor x y)
      end
  | JF x y =>
      match op with
      | Add => omap AFloat (bzip PrimFloat.add x y)
      | Sub => omap AFloat (bzip PrimFloat.sub x y)
      | Mul => omap AFloat (bzip PrimFloat.mul x y)
      | Div => omap AFloat (bzip PrimFloat.div x y)
      | Mod => Unmodelled
      | Eq => omap ABool (bzip PrimFloat.eqb x y)
      | Ne => omap ABool (bzip (λ p q, negb (PrimFloat.eqb p q)) x y)
      | Lt => omap ABool (bzip PrimFloat.ltb x y)
      | Gt => omap ABool (bzip (λ p q, PrimFloat.ltb q p) x y)
      | Le => omap ABool (bzip PrimFloat.leb x y)
      | Ge => omap ABool (bzip (λ p q, PrimFloat.leb q p) x y)
      | And | Or => Raise TypeError
      end
  | JS x y =>
      match op with
      | Eq => omap ABool (bzip String.eqb x y)
      | Ne => omap ABool (bzip (λ p q, negb (String.eqb p q)) x y)
      | _ => Unmodelled
      end
  | JMixed => Unmodelled
  end.

(** Python integers convert to [float] exactly up to [2^53]. *)
Definition exact_float (z : Z) : outcome float :=
  if Z.abs z <=? 2 ^ 53 then Ok (float_of_Z z) else Unmodelled.

Definition py_int_binop (op : binop) (p q : Z) : outcome scalar :=
  match op with
  | Add => Ok (SInt (p + q))
  | Sub => Ok (SInt (p - q))
  | Mul => Ok (SInt (p * q))
  | Div => if q =? 0 then Raise ZeroDivisionError
           else let+ x := exact_float p in let+ y := exact_float q in Ok (SFloat (x / y))
  | Mod => if q =? 0 then Raise ZeroDivisionError else Ok (SInt (p mod q))
  | Eq => Ok (SBool (p =? q))
  | Ne => Ok (SBool (negb (p =? q)))
  | Lt => Ok (SBool (p <? q))
  | Gt => Ok (SBool (p >? q))
  | Le => Ok (SBool (p <=? q))
  | Ge => Ok (SBool (p >=? q))
  | And => Ok (SInt (Z.land p q))
  | Or => Ok (SInt (Z.lor p q))
  end.

Definition py_float_binop (op : binop) (x y : float) : outcome scalar :=
  match op with
  | Add => Ok (SFloat (x + y))
  | Sub => Ok (SFloat (x - y))
  | Mul => Ok (SFloat (x * y))
  | Div => if PrimFloat.eqb y 0 then Raise ZeroDivisionError else Ok (SFloat (x / y))
  | Mod => Unmodelled
  | Eq => Ok (SBool (PrimFloat.eqb x y))
  | Ne => Ok (SBool (negb (PrimFloat.eqb x y)))
  | Lt => Ok (SBool (PrimFloat.ltb x y))
  | Gt => Ok (SBool (PrimFloat.ltb y x))
  | Le => Ok (SBool (PrimFloat.leb x y))
  | Ge => Ok (SBool (PrimFloat.leb y x))
  | And | Or => Raise TypeError
  end.

(** A binary operator on two Python scalars.  [bool] is a subtype of [int]:
    [&] and [|] of two [bool]s stay [bool], arithmetic gives [int]. *)
Definition py_binop (op : binop) (x y : scalar) : outcome scalar :=
  match x, y with
  | SBool p, SBool q =>
      match op with
      | And => Ok (SBool (p && q))
      | Or => Ok (SBool (p || q))
      | _ => py_int_binop op (Z_of_bool p) (Z_of_bool q)
      end
  | SBool p, SInt q => py_int_binop op (Z_of_bool p) q
  | SInt p, SBool q => py_int_binop op p (Z_of_bool q)
  | SInt p, SInt q => py_int_binop op p q
  | SFloat p, SFloat q => py_float_binop op p q
  | SFloat p, SInt q => let+ y := exact_float q in py_float_binop op p y
  | SFloat p, SBool q => py_float_binop op p (float_of_Z (Z_of_bool q))
  | SInt p, SFloat q => let+ x := exact_float p in py_float_binop op x q
  | SBool p, SFloat q => py_float_binop op (float_of_Z (Z_of_bool p)) q
  | SStr p, SStr q =>
      match op with
      | Eq => Ok (SBool (String.eqb p q))
      | Ne => Ok (SBool (negb (String.eqb p q)))
      | Add => Ok (SStr (p +:+ q))
      | Sub | Mul | Div | And | Or => Raise TypeError
      | _ => Unmodelled
      end
  | _, _ =>
      match op with
      | Eq => Ok (SBool false)
      | Ne => Ok (SBool true)
      | Mul | Mod => Unmodelled
      | _ => Raise TypeError
      end
  end.

Definition first_item (a : ndarray) : option scalar := head (elements a).

(** The result of a numpy operation is an array as soon as one operand is. *)
Definition np_result (a b : operand) (r : ndarray) : outcome nresult :=
  if is_array a || is_array b then Ok (RArr r)
  else match first_item r with
       | Some x => Ok (RNp x)
       | None => Unmodelled
       end.

Definition host_binop (op : binop) (a b : operand) : outcome nresult :=
  match a, b with
  | OPy x, OPy y => omap RPy (py_binop op x y)
  | _, _ =>
      let+ x := as_array a in
      let+ y := as_array b in
      let+ r := np_binop op x y in
      np_result a b r
  end.

Inductive unop := Neg | Invert | Abs | Sqrt.

(** [np.sqrt] of an integer array computes in [float64].  The root of a
    float array is rounded to the precision of that array, [float32] for the
    arrays of a molecule, and arrays here hold values without their
    precision: that case is left out. *)
Definition np_unop (op : unop) (a : ndarray) : outcome ndarray :=
  match op, a with
  | Neg, ABool _ => Raise TypeError
  | Neg, AInt l => Ok (AInt ((λ z, wrap64 (- z)) <$> l))
  | Neg, AFloat l => Ok (AFloat (PrimFloat.opp <$> l))
  | Invert, ABool l => Ok (ABool (negb <$> l))
  | Invert, AInt l => Ok (AInt ((λ z, - 1 - z) <$> l))
  | Invert, AFloat _ => Raise TypeError
  | Abs, ABool l => Ok (ABool l)
  | Abs, AInt l => Ok (AInt ((λ z, wrap64 (Z.abs z)) <$> l))
  | Abs, AFloat l => Ok (AFloat (PrimFloat.abs <$> l))
  | Sqrt, AInt l => Ok (AFloat ((λ z, PrimFloat.sqrt (float_of_Z z)) <$> l))
  | Sqrt, AFloat _ => Unmodelled
  | Sqrt, ABool _ => Unmodelled
  | _, AStr _ => Unmodelled
  end.

(** The operators [-x] and [~x] on a Python scalar. *)
Definition py_unop (op : unop) (x : scalar) : outcome scalar :=
  match op, x with
  | Neg, SBool b => Ok (SInt (- Z_of_bool b))
  | Neg, SInt z => Ok (SInt (- z))
  | Neg, SFloat f => Ok (SFloat (- f))
  | Invert, SBool b => Ok (SInt (- 1 - Z_of_bool b))
  | Invert, SInt z => Ok (SInt (- 1 - z))
  | (Neg | Invert), _ => Raise TypeError
  | (Abs | Sqrt), _ => Unmodelled
  end.

Definition np_call (op : unop) (a : operand) : outcome nresult :=
  let+ x := as_array a in
  let+ r := np_unop op x in
  np_result a a r.

(** [-x] and [~x] are Python operators: on a Python scalar they are
    Python's.  [np.abs] and [np.sqrt] are numpy functions whatever the
    argument. *)
Definition host_unop (op : unop) (a : operand) : outcome nresult :=
  match op, a with
  | (Neg | Invert), OPy x => omap RPy (py_unop op x)
  | _, _ => np_call op a
  end.

Definition nonzero (x : scalar) : outcome bool :=
  match x with
  | SBool b => Ok b
  | SInt z => Ok (negb (z =? 0))
  | SFloat f => Ok (negb (PrimFloat.eqb f 0))
  | SStr _ => Unmodelled
  end.

(** [np.any(x)], as the truth value the [if] tests. *)
Definition np_any (a : operand) : outcome bool :=
  match a with
  | OPy x | ONp x => nonzero x
  | OArr (ABool l) => Ok (existsb id l)
  | OArr (AInt l) => Ok (existsb (λ z, negb (z =? 0)) l)
  | OArr (AFloat l) => Ok (existsb (λ f, negb (PrimFloat.eqb f 0)) l)
  | OArr (AStr _) => Unmodelled
  | OList _ => Unmodelled
  end.

Definition nresult_operand (r : nresult) : operand :=
  match r with
  | RPy x => OPy x
  | RNp x => ONp x
  | RArr a => OArr a
  end.

Definition binary (op : binop) (v w : pyval) : Py pyval :=
  let* a := fetch v in
  let* b := fetch w in
  let* r := lift (host_binop op a b) in
  emit r.

Definition unary (op : unop) (v : pyval) : Py pyval :=
  let* a := fetch v in
  let* r := lift (host_unop op a) in
  emit r.

(** ** Membership, distinct values and indexing *)

Definition all_bools (items : list scalar) : option (list bool) :=
  mapM (λ x, match x with SBool b => Some b | _ => None end) items.
Definition all_ints (items : list scalar) : option (list Z) :=
  mapM (λ x, match x with
             | SBool b => Some (Z_of_bool b)
             | SInt z => if in_int64 z then Some z else None
             | _ => None
             end) items.
Definition all_floats (items : list scalar) : option (list float) :=
  mapM (λ x, match x with
             | SBool b => Some (float_of_Z (Z_of_bool b))
             | SInt z => if in_int64 z then Some (float_of_Z z) else None
             | SFloat f => Some f
             | SStr _ => None
             end) items.
Definition all_strs (items : list scalar) : option (list string) :=
  mapM (λ x, match x with SStr s => Some s | _ => None end) items.

(** [np.asarray] of a list literal: the narrowest of [bool], [int64],
    [float64] that holds every item, or a string array; the empty list is an
    empty [float64] array. *)
Definition np_asarray (items : list scalar) : outcome ndarray :=
  match items with
  | [] => Ok (AFloat [])
  | _ =>
      match all_bools items, all_ints items, all_floats items, all_strs items with
      | Some l, _, _, _ => Ok (ABool l)
      | None, Some l, _, _ => Ok (AInt l)
      | None, None, Some l, _ => Ok (AFloat l)
      | None, None, None, Some l => Ok (AStr l)
      | None, None, None, None => Unmodelled
      end
  end.

(** [np.isin(x, y)]: for each element of [x], whether it equals some element
    of [y]. *)
Definition np_isin (x y : ndarray) : outcome ndarray :=
  match join x y with
  | JB xs ys => Ok (ABool ((λ p, existsb (Bool.eqb p) ys) <$> xs))
  | JI xs ys => Ok (ABool ((λ p, existsb (Z.eqb p) ys) <$> xs))
  | JF xs ys => Ok (ABool ((λ p, existsb (PrimFloat.eqb p) ys) <$> xs))
  | JS xs ys => Ok (ABool ((λ p, existsb (String.eqb p) ys) <$> xs))
  | JMixed => Unmodelled
  end.

(** Insertion of a value in a strictly increasing list. *)
Fixpoint insert_unique {A} (ltb eqb : A → A → bool) (x : A) (l : list A) : list A :=
  match l with
  | [] => [x]
  | y :: l' =>
      if eqb x y then l
      else if ltb x y then x :: l
      else y :: insert_unique ltb eqb x l'
  end.

Definition sort_unique {A} (ltb eqb : A → A → bool) (l : list A) : list A :=
  foldr (insert_unique ltb eqb) [] l.

(** [np.unique]: the distinct values, in increasing order.  For floats the
    order of a [nan] is outside the model. *)
Definition np_unique (a : ndarray) : outcome ndarray :=
  match a with
  | ABool l => Ok (ABool (sort_unique (λ p q, negb p && q) Bool.eqb l))
  | AInt l => Ok (AInt (sort_unique Z.ltb Z.eqb l))
  | AFloat l =>
      if existsb PrimFloat.is_nan l then Unmodelled
      else Ok (AFloat (sort_unique PrimFloat.ltb PrimFloat.eqb l))
  | AStr l => Ok (AStr (sort_unique String.ltb String.eqb l))
  end.

(** The elements of [l] at the positions where the mask is true. *)
Fixpoint select {A} (m : list bool) (l : list A) : list A :=
  match m, l with
  | b :: m', x :: l' => if b then x :: select m' l' else select m' l'
  | _, _ => []
  end.

(** Integer (fancy) indexing: negative indices count from the end, an index
    out of range is an [IndexError]. *)
Definition gather {A} (idx : list Z) (l : list A) : outcome (list A) :=
  let n := Z.of_nat (length l) in
  foldr (λ i acc,
           let+ rest := acc in
           if (- n <=? i) && (i <? n) then
             match l !! Z.to_nat (i mod n) with
             | Some x => Ok (x :: rest)
             | None => Raise IndexError
             end
           else Raise IndexError)
        (Ok []) idx.

Definition amap_lists (a : ndarray)
    (f : ∀ A, list A → outcome (list A)) : outcome ndarray :=
  match a with
  | ABool l => omap ABool (f bool l)
  | AInt l => omap AInt (f Z l)
  | AFloat l => omap AFloat (f float l)
  | AStr l => omap AStr (f string l)
  end.

(** [a[sel]] for a one-dimensional array [a]. *)
Definition np_getitem (a : ndarray) (sel : operand) : outcome nresult :=
  match sel with
  | OArr (ABool m) =>
      if Nat.eqb (length m) (alen a)
      then omap RArr (amap_lists a (λ A l, Ok (select m l)))
      else Raise IndexError
  | OArr (AInt idx) => omap RArr (amap_lists a (λ A l, gather idx l))
  | OArr (AFloat _) | OArr (AStr _) => Raise IndexError
  | OPy (SInt i) | ONp (SInt i) =>
      let+ r := amap_lists a (λ A l, gather [i] l) in
      match first_item r with
      | Some x => Ok (RNp x)
      | None => Unmodelled
      end
  | OPy (SFloat _) | OPy (SStr _) | ONp (SFloat _) | ONp (SStr _) => Raise IndexError
  | OPy (SBool _) | ONp (SBool _) | OList _ => Unmodelled
  end.

Definition result_array (r : nresult) : ndarray :=
  match r with
  | RPy x | RNp x => singleton x
  | RArr a => a
  end.

(** ** Helpers of the spatial query *)

(** [numpy.minimum] and [numpy.maximum]: a [nan] wins. *)
Definition fmin (a b : float) : float :=
  if PrimFloat.is_nan a then a
  else if PrimFloat.is_nan b then b
  else if PrimFloat.ltb b a then b else a.
Definition fmax (a b : float) : float :=
  if PrimFloat.is_nan a then a
  else if PrimFloat.is_nan b then b
  else if PrimFloat.ltb a b then b else a.

(** [rows.min(axis=0)] and [rows.max(axis=0)]; an empty selection has no
    minimum. *)
Definition reduce_rows (f : float → float → float) (rows : list (list float))
  : outcome (list float) :=
  match rows with
  | [] => Raise ValueError
  | r :: rows' => Ok (foldl (zip_with f) r rows')
  end.

(** [mol.coords[source, :, mol.frame]]: the rows of the source atoms. *)
Definition pick_rows (rows : list (list float)) (source : operand)
  : outcome (list (list float)) :=
  match source with
  | OArr (ABool m) =>
      if Nat.eqb (length m) (length rows) then Ok (select m rows) else Raise IndexError
  | OArr (AInt idx) => gather idx rows
  | OArr (AFloat _) | OArr (AStr _) => Raise IndexError
  | _ => Unmodelled
  end.

Fixpoint where_from {A} (nz : A → bool) (i : nat) (l : list A) : list nat :=
  match l with
  | [] => []
  | x :: l' => if nz x then i :: where_from nz (S i) l' else where_from nz (S i) l'
  end.

(** [np.where(source)[0]]: the positions of the non-zero elements. *)
Definition np_where (source : operand) : outcome (list nat) :=
  match source with
  | OArr (ABool m) => Ok (where_from id 0%nat m)
  | OArr (AInt l) => Ok (where_from (λ z, negb (z =? 0)) 0%nat l)
  | OArr (AFloat l) => Ok (where_from (λ f, negb (PrimFloat.eqb f 0)) 0%nat l)
  | _ => Unmodelled
  end.

(** [mask[source] = False]. *)
Definition clear_at (mask : list bool) (source : operand) : outcome (list bool) :=
  match source with
  | OArr (ABool m) =>
      if Nat.eqb (length m) (length mask)
      then Ok (zip_with (λ b src, b && negb src) mask m)
      else Raise IndexError
  | OArr (AInt idx) =>
      let n := Z.of_nat (length mask) in
      foldr (λ i acc,
               let+ cur := acc in
               if (- n <=? i) && (i <? n)
               then Ok (<[Z.to_nat (i mod n) := false]> cur)
               else Raise IndexError)
            (Ok mask) idx
  | OArr (AFloat _) | OArr (AStr _) => Raise IndexError
  | _ => Unmodelled
  end.

(** ** Strings *)

(** [needle in hay] for two strings. *)
Fixpoint str_contains (needle hay : string) : bool :=
  String.prefix needle hay ||
  match hay with
  | EmptyString => false
  | String _ hay' => str_contains needle hay'
  end.

(** The truth value of [v == t] for a string constant [t]. *)
Definition tag_is (v : pyval) (t : string) : outcome bool :=
  match v with
  | VPy (SStr s) => Ok (String.eqb s t)
  | VPy _ | VNp _ | VList _ => Ok false
  | VArr _ => Unmodelled
  end.

(** [v in (t1, t2, ...)]: the members are tried in order. *)
Fixpoint tag_in (v : pyval) (ts : list string) : outcome bool :=
  match ts with
  | [] => Ok false
  | t :: ts' => let+ b := tag_is v t in if b then Ok true else tag_in v ts'
  end.

Definition isinstance_list (y : pyval) : bool :=
  match y with VList _ => true | _ => false end.
Definition isinstance_str (y : pyval) : bool :=
  match y with VPy (SStr _) => true | _ => false end.

(** [".*" in yy]: only a string can be searched. *)
Definition has_wildcard (yy : scalar) : outcome bool :=
  match yy with
  | SStr s => Ok (str_contains ".*" s)
  | _ => Raise TypeError
  end.

(** [molpropmap]: selection-language property name to molecule attribute. *)
Definition molpropmap : gmap string string :=
  list_to_map
    [("serial", "serial"); ("name", "name"); ("element", "element");
     ("resname", "resname"); ("resid", "resid"); ("insertion", "insertion");
     ("chain", "chain"); ("segid", "segid"); ("segname", "segid");
     ("altloc", "altloc"); ("mass", "masses"); ("occupancy", "beta");
     ("beta", "beta"); ("charge", "charge")].

(** Looking a value up as a key of [molpropmap]: only strings are keys;
    lists and arrays cannot be hashed. *)
Definition molpropmap_find (v : pyval) : outcome (option string) :=
  match v with
  | VPy (SStr s) => Ok (molpropmap !! s)
  | VPy _ | VNp _ => Ok None
  | VList _ | VArr _ => Raise TypeError
  end.

(** ** The syntax tree

    A node is the tuple [(operation, child, ...)] the parser builds; a child
    is another node or a literal (a scalar or a list of scalars). *)
Inductive node :=
| Node (operation : string) (children : list child)
with child :=
| CNode (n : node)
| CScalar (x : scalar)
| CList (items : list scalar).

Fixpoint omapM {A B} (f : A → outcome B) (l : list A) : outcome (list B) :=
  match l with
  | [] => Ok []
  | x :: l' => let+ y := f x in let+ ys := omapM f l' in Ok (y :: ys)
  end.

(** [all([".*" not in yy for yy in y])]: the comprehension is built first. *)
Definition all_without_wildcard (items : list scalar) : outcome bool :=
  omap (forallb negb) (omapM has_wildcard items).

(** Running a computation on each element of a list, first to last. *)
Definition for_each {A B} (f : A → Py B) : list A → Py (list B) :=
  fix go (l : list A) : Py (list B) :=
    match l with
    | [] => ret []
    | x :: l' => let* y := f x in let* ys := go l' in ret (y :: ys)
    end.

Section Evaluator.

(** [re.match(pattern, string)] of the Python standard library, as the truth
    value of its result; it may raise. *)
Variable re_match : string → string → outcome bool.

(** The distance primitive [within_distance(coords, cutoff, source,
    min_source, max_source, results)] of [moleculekit.atomselect_utils]; it
    fills [results] in place, given here as the new contents. *)
Variable within_distance :
  list (list float) → scalar → list nat → list float → list float →
  list bool → outcome (list bool).

(** [node[i]] *)
Definition item (node : list pyval) (i : nat) : Py pyval :=
  match node !! i with
  | Some v => ret v
  | None => raise IndexError
  end.

(** [analysis[key]]: the array stored in the mapping, not a copy. *)
Definition analysis_get (key : string) : Py pyval :=
  λ s, match analysis s !! key with
       | Some _ => (Ok (VArr (LAnalysis key)), s)
       | None => (Raise (KeyError (VStr key)), s)
       end.

(** [getattr(mol, attr)]: the molecule's own array. *)
Definition mol_getattr (attr : string) : Py pyval :=
  λ s, match getattr (mol s) attr with
       | Some _ => (Ok (VArr (LAttr attr)), s)
       | None => (Raise (AttributeError attr), s)
       end.

(** [mol.coords[:, k, mol.frame]]: a view of the coordinates. *)
Definition coords_column (k : nat) : Py pyval :=
  λ s, if (frame (mol s) <? numFrames (mol s))%nat
       then match coords_axis (mol s) k with
            | Some _ => (Ok (VArr (LAxis k)), s)
            | None => (Unmodelled, s)
            end
       else (Raise IndexError, s).

(** [np.arange(0, mol.numAtoms)] *)
Definition arange_numAtoms : Py pyval :=
  let* m := get_mol in
  let* l := alloc (AInt (Z.of_nat <$> seq 0 (numAtoms m))) in
  ret (VArr l).

(** [np.array([re.match(y, xx) for xx in x], dtype=bool)] *)
Definition match_each (x y : pyval) : Py pyval :=
  let* a := fetch x in
  match a, y with
  | OArr (AStr l), VPy (SStr pattern) =>
      let* bs := lift (omapM (re_match pattern) l) in
      let* r := alloc (ABool bs) in
      ret (VArr r)
  | OArr arr, VPy (SStr _) =>
      if Nat.eqb (alen arr) 0
      then let* r := alloc (ABool []) in ret (VArr r)
      else raise TypeError
  | _, _ => unmodelled
  end.

(** The two nested loops of [fn], one entry of [res] per pair [(xx, yy)]. *)
Definition match_pairs (x : pyval) (items : list scalar) : Py pyval :=
  let* a := fetch x in
  match a with
  | OArr (AStr l) =>
      let* res :=
        lift (omapM (λ xx,
                omapM (λ yy,
                  let+ wild := has_wildcard yy in
                  match yy with
                  | SStr p => if wild then re_match p xx else Ok (String.eqb xx p)
                  | _ => Unmodelled
                  end) items) l) in
      let* r := alloc (ABool (concat res)) in
      ret (VArr r)
  | _ => unmodelled
  end.

(** [np.isin(x, y)] for a list [y] *)
Definition isin_list (x : pyval) (items : list scalar) : Py pyval :=
  let* a := fetch x in
  let* xa := lift (as_array a) in
  let* ya := lift (np_asarray items) in
  let* r := lift (np_isin xa ya) in
  let* r' := lift (np_result a a r) in
  emit r'.

(** The value matcher [fn(x, y)] local to the property-equals block.  The
    [or] of Python is lazy: its right operand runs only when
    [isinstance(y, str)]. *)
Definition fn (x y : pyval) : Py pyval :=
  match y with
  | VList items =>
      let* plain :=
        lift (if negb (isinstance_str y) then Ok true
              else all_without_wildcard items) in
      if plain then isin_list x items
      else match_pairs x items
  | _ =>
      let* plain :=
        lift (if negb (isinstance_str y) then Ok true
              else match y with
                   | VPy yy => omap negb (has_wildcard yy)
                   | _ => Unmodelled
                   end) in
      if plain then binary Eq x y
      else match_each x y
  end.

Definition op_molecule (node : list pyval) : Py pyval :=
  let* molec := item node 1 in
  let* b := lift (tag_in molec ["lipid"; "lipids"]) in
  if b then analysis_get "lipids" else
  let* b := lift (tag_in molec ["ion"; "ions"]) in
  if b then analysis_get "ions" else
  let* b := lift (tag_in molec ["water"; "waters"]) in
  if b then analysis_get "waters" else
  let* b := lift (tag_is molec "hydrogen") in
  if b then (let* e := mol_getattr "element" in binary Eq e (VStr "H")) else
  let* b := lift (tag_is molec "noh") in
  if b then (let* e := mol_getattr "element" in binary Ne e (VStr "H")) else
  let* b := lift (tag_is molec "backbone") in
  if b then (let* p := analysis_get "protein_bb" in
             let* n := analysis_get "nucleic_bb" in
             binary Or p n) else
  let* b := lift (tag_is molec "sidechain") in
  if b then analysis_get "sidechain" else
  let* b := lift (tag_is molec "protein") in
  if b then analysis_get "protein" else
  let* b := lift (tag_is molec "nucleic") in
  if b then analysis_get "nucleic" else
  raise (RuntimeError (Invalid_molecule_selection molec)).

Definition op_molprop_eq (node : list pyval) : Py pyval :=
  let* molprop := item node 1 in
  let* value := item node 2 in
  let* found := lift (molpropmap_find molprop) in
  match found with
  | Some attr => let* x := mol_getattr attr in fn x value
  | None =>
      let* b := lift (tag_is molprop "index") in
      if b then (let* x := arange_numAtoms in fn x value) else
      let* b := lift (tag_is molprop "residue") in
      if b then (let* x := analysis_get "residues" in fn x value) else
      raise (RuntimeError (Invalid_molprop molprop))
  end.

(** [molpropmap[key]] *)
Definition molpropmap_item (key : pyval) : Py string :=
  let* found := lift (molpropmap_find key) in
  match found with
  | Some attr => ret attr
  | None => raise (KeyError key)
  end.

Definition op_molprop_int_modulo (node : list pyval) : Py pyval :=
  let* molprop := item node 1 in
  let* val1 := item node 2 in
  let* val2 := item node 3 in
  let* attr := molpropmap_item molprop in
  let* x := mol_getattr attr in
  let* a := fetch x in
  let* b := fetch val1 in
  let* rem := lift (host_binop Mod a b) in
  let* c := fetch val2 in
  let* r := lift (host_binop Eq (nresult_operand rem) c) in
  emit r.

Definition op_logop (node : list pyval) : Py pyval :=
  let* op := item node 1 in
  let* b := lift (tag_is op "and") in
  if b then (let* l := item node 2 in let* r := item node 3 in binary And l r) else
  let* b := lift (tag_is op "or") in
  if b then (let* l := item node 2 in let* r := item node 3 in binary Or l r) else
  let* b := lift (tag_is op "not") in
  if b then (let* v := item node 2 in unary Invert v) else
  raise (RuntimeError (Invalid_logop op)).

Definition op_uminus (node : list pyval) : Py pyval :=
  let* v := item node 1 in unary Neg v.

Definition op_grouped (node : list pyval) : Py pyval :=
  item node 1.

Definition op_numprop (node : list pyval) : Py pyval :=
  let* val1 := item node 1 in
  let* b := lift (tag_is val1 "x") in
  if b then coords_column 0 else
  let* b := lift (tag_is val1 "y") in
  if b then coords_column 1 else
  let* b := lift (tag_is val1 "z") in
  if b then coords_column 2 else
  let* attr := molpropmap_item val1 in
  mol_getattr attr.

Definition op_comp (node : list pyval) : Py pyval :=
  let* op := item node 1 in
  let* val1 := item node 2 in
  let* val2 := item node 3 in
  let* b := lift (tag_is op "=") in
  if b then binary Eq val1 val2 else
  let* b := lift (tag_is op "<") in
  if b then binary Lt val1 val2 else
  let* b := lift (tag_is op ">") in
  if b then binary Gt val1 val2 else
  let* b := lift (tag_is op "<=") in
  if b then binary Le val1 val2 else
  let* b := lift (tag_is op ">=") in
  if b then binary Ge val1 val2 else
  raise (RuntimeError (Invalid_comparison_op op)).

Definition op_func (node : list pyval) : Py pyval :=
  let* f := item node 1 in
  let* b := lift (tag_is f "abs") in
  if b then (let* v := item node 2 in unary Abs v) else
  let* b := lift (tag_is f "sqr") in
  if b then (let* v := item node 2 in let* w := item node 2 in binary Mul v w) else
  let* b := lift (tag_is f "sqrt") in
  if b then
    (let* v := item node 2 in
     let* a := fetch v in
     let* neg := lift (host_binop Lt a (OPy (SInt 0))) in
     let* any := lift (np_any (nresult_operand neg)) in
     if any then raise (RuntimeError (Negative_values_in_sqrt_call v))
     else let* v' := item node 2 in unary Sqrt v')
  else raise (RuntimeError (Invalid_function f)).

(** The four tests of [op] are separate [if]s: all run, and [fn] stays
    unbound when none holds. *)
Definition op_mathop (node : list pyval) : Py pyval :=
  let* op := item node 1 in
  let* add := lift (tag_is op "+") in
  let* sub := lift (tag_is op "-") in
  let* mul := lift (tag_is op "*") in
  let* div := lift (tag_is op "/") in
  let* val1 := item node 2 in
  let* val2 := item node 3 in
  if div then binary Div val1 val2
  else if mul then binary Mul val1 val2
  else if sub then binary Sub val1 val2
  else if add then binary Add val1 val2
  else raise (UnboundLocalError "fn").

(** [np.isin(values, np.unique(values[sel]))] *)
Definition same_values (values sel : pyval) : Py pyval :=
  let* a := fetch values in
  let* arr := lift (as_array a) in
  let* i := fetch sel in
  let* picked := lift (np_getitem arr i) in
  let* selvals := lift (np_unique (result_array picked)) in
  let* r := lift (np_isin arr selvals) in
  let* l := alloc r in
  ret (VArr l).

Definition op_sameas (node : list pyval) : Py pyval :=
  let* prop := item node 1 in
  let* sel := item node 2 in
  let* b := lift (tag_is prop "fragment") in
  if b then (let* values := analysis_get "fragments" in same_values values sel) else
  let* found := lift (molpropmap_find prop) in
  match found with
  | Some attr => let* propvalues := mol_getattr attr in same_values propvalues sel
  | None =>
      let* b := lift (tag_is prop "residue") in
      if b then (let* values := analysis_get "residues" in same_values values sel)
      else raise (RuntimeError (Invalid_property prop))
  end.

(** [mol.coords[:, :, mol.frame]] *)
Definition frame_rows : Py (list (list float)) :=
  λ s, if (frame (mol s) <? numFrames (mol s))%nat
       then match coords_frame (mol s) with
            | Some rows => (Ok rows, s)
            | None => (Unmodelled, s)
            end
       else (Raise IndexError, s).

(** The cutoff handed to the primitive is a number. *)
Definition as_scalar (v : pyval) : outcome scalar :=
  match v with
  | VPy x | VNp x => Ok x
  | VList _ | VArr _ => Unmodelled
  end.

Definition load_bools (l : loc) : Py (list bool) :=
  let* a := load l in
  match a with
  | ABool bits => ret bits
  | _ => unmodelled
  end.

Definition op_within (operation : string) (node : list pyval) : Py pyval :=
  let* m := get_mol in
  let* mask := alloc (ABool (replicate (numAtoms m) false)) in
  let* cutoff := item node 1 in
  let* source := item node 2 in
  let* src := fetch source in
  let* any := lift (np_any src) in
  if negb any then ret (VArr mask) else
  let* rows := frame_rows in
  let* source_coor := lift (pick_rows rows src) in
  let* min_source := lift (reduce_rows fmin source_coor) in
  let* max_source := lift (reduce_rows fmax source_coor) in
  let* idx := lift (np_where src) in
  let* c := lift (as_scalar cutoff) in
  let* results := load_bools mask in
  let* _ := count_wd_call in
  let* filled := lift (within_distance rows c idx min_source max_source results) in
  let* _ := store_at mask (ABool filled) in
  if String.eqb operation "exwithin" then
    let* src' := fetch source in
    let* bits := load_bools mask in
    let* cleared := lift (clear_at bits src') in
    let* _ := store_at mask (ABool cleared) in
    ret (VArr mask)
  else ret (VArr mask).

(** The body of [traverse_ast] once the children are resolved: [node] is the
    list [operation, value, ...], so [item node i] is [node[i]]. *)
Definition apply_operation (operation : string) (node : list pyval) : Py pyval :=
  if String.eqb operation "molecule" then op_molecule node
  else if String.eqb operation "molprop_int_eq" || String.eqb operation "molprop_str_eq"
  then op_molprop_eq node
  else if String.eqb operation "molprop_int_modulo" then op_molprop_int_modulo node
  else if String.eqb operation "logop" then op_logop node
  else if String.eqb operation "uminus" then op_uminus node
  else if String.eqb operation "grouped" then op_grouped node
  else if String.eqb operation "numprop" then op_numprop node
  else if String.eqb operation "comp" then op_comp node
  else if String.eqb operation "func" then op_func node
  else if String.eqb operation "mathop" then op_mathop node
  else if String.eqb operation "sameas" then op_sameas node
  else if String.eqb operation "within" || String.eqb operation "exwithin"
  then op_within operation node
  else raise (RuntimeError (Invalid_operation operation)).

(** [traverse_ast(mol, analysis, node)]: the children that are nodes are
    evaluated first, left to right, then the operation is applied. *)
Fixpoint traverse_ast (n : node) : Py pyval :=
  match n with
  | Node operation children =>
      let* resolved :=
        for_each (λ c, match c with
                       | CNode sub => traverse_ast sub
                       | CScalar x => ret (VPy x)
                       | CList items => ret (VList items)
                       end) children in
      apply_operation operation (VStr operation :: resolved)
  end.

End Evaluator.

(** ** Observing a run *)

(** A value with its arrays read out of the store. *)
Inductive value :=
| Scalar (x : scalar)
| NpScalar (x : scalar)
| ListOf (items : list scalar)
| Array (a : ndarray).

Definition deref (s : store) (v : pyval) : option value :=
  match v with
  | VPy x => Some (Scalar x)
  | VNp x => Some (NpScalar x)
  | VList items => Some (ListOf items)
  | VArr l => Array <$> read s l
  end.

Definition initial (m : Molecule) (a : gmap string ndarray) : store :=
  {| mol := m; analysis := a; heap := []; wd_calls := 0 |}.

(** [evaluate re wd m a n]: what [traverse_ast(mol, analysis, node)] returns
    when started with nothing allocated, arrays read out. *)
Definition evaluate re_match within_distance
    (m : Molecule) (a : gmap string ndarray) (n : node) : outcome value :=
  match traverse_ast re_match within_distance n (initial m a) with
  | (Ok v, s) => match deref s v with
                 | Some x => Ok x
                 | None => Unmodelled
                 end
  | (Raise e, _) => Raise e
  | (Unmodelled, _) => Unmodelled
  end.

(** ** Reference collaborators

    Executable stand-ins for the two collaborators, used to run the
    evaluator on concrete molecules. *)

Inductive re_atom :=
| RChar (c : ascii)
| RDot.

(** The patterns made of literal characters, [.] and a postfix [*]. *)
Definition re_meta (c : ascii) : bool :=
  existsb (Ascii.eqb c)
    ["\"; "["; "]"; "("; ")"; "+"; "?"; "{"; "}"; "|"; "^"; "$"; "*"]%char.

Fixpoint re_parse (p : string) : option (list (re_atom * bool)) :=
  match p with
  | EmptyString => Some []
  | String c p' =>
      if re_meta c then None
      else
        let a := if Ascii.eqb c "."%char then RDot else RChar c in
        match p' with
        | String "*"%char p'' => (λ rest, (a, true) :: rest) <$> re_parse p''
        | _ => (λ rest, (a, false) :: rest) <$> re_parse p'
        end
  end.

Definition re_atom_ok (a : re_atom) (c : ascii) : bool :=
  match a with
  | RChar c' => Ascii.eqb c c'
  | RDot => negb (Ascii.eqb c "010"%char)
  end.

(** Whether some prefix of the string matches the pattern. *)
Fixpoint re_match_here (items : list (re_atom * bool)) (s : string) : bool :=
  match items with
  | [] => true
  | (a, false) :: items' =>
      match s with
      | String c s' => re_atom_ok a c && re_match_here items' s'
      | EmptyString => false
      end
  | (a, true) :: items' =>
      (fix star (s : string) : bool :=
         re_match_here items' s ||
         match s with
         | String c s' => re_atom_ok a c && star s'
         | EmptyString => false
         end) s
  end.

(** [re.match] on the fragment above; other patterns are left out. *)
Definition re_match_fragment (pattern s : string) : outcome bool :=
  match re_parse pattern with
  | Some items => Ok (re_match_here items s)
  | None => Unmodelled
  end.

Definition cutoff_float (c : scalar) : outcome float :=
  match c with
  | SBool b => Ok (float_of_Z (Z_of_bool b))
  | SInt z => if in_int64 z then Ok (float_of_Z z) else Raise OverflowError
  | SFloat f => Ok f
  | SStr _ => Raise TypeError
  end.

Definition dist2 (p q : list float) : float :=
  foldl PrimFloat.add 0%float (zip_with (λ a b, (a - b) * (a - b))%float p q).

(** Modelled from the spec: the distance primitive [within_distance] of
    [moleculekit.atomselect_utils] is not part of the sources at hand.  Per
    the spec it populates a boolean mask of the atoms within [cutoff] of any
    source atom; this is the exact pairwise computation, without the
    bounding-box pruning. *)
Definition within_distance_ref (coords : list (list float)) (cutoff : scalar)
    (source : list nat) (min_source max_source : list float)
    (results : list bool) : outcome (list bool) :=
  let+ c := cutoff_float cutoff in
  Ok (imap (λ i _,
        match coords !! i with
        | Some p =>
            existsb (λ j, match coords !! j with
                          | Some q => PrimFloat.leb 0 c && PrimFloat.leb (dist2 p q) (c * c)
                          | None => false
                          end) source
        | None => false
        end) results).

(** ** Vocabulary of the properties *)

(** [untouched except s s']: the store [s'] has the molecule and the
    analysis of [s], and every array allocated in [s] is there with the
    contents it had, save possibly the one at heap index [except]. *)
Definition untouched (except : option nat) (s s' : store) : Prop :=
  mol s' = mol s ∧
  analysis s' = analysis s ∧
  ∀ i arr, except ≠ Some i → heap s !! i = Some arr → heap s' !! i = Some arr.

(** A computation keeps the frame when, from every store, it ends (with a
    value or not) in a store where all of that is untouched. *)
Definition keeps {A} (except : option nat) (c : Py A) : Prop :=
  ∀ s, untouched except s (c s).2.

(** Some element of a numeric array is negative. *)
Definition has_negative (a : ndarray) : bool :=
  match a with
  | AInt zs => existsb (λ z, z <? 0) zs
  | AFloat fs => existsb (λ f, PrimFloat.ltb f 0) fs
  | ABool _ | AStr _ => false
  end.

(** The mask of "same <group> as": the atoms whose group value occurs among
    the selected atoms. *)
Definition group_mask (groups : list Z) (sel : list bool) : list bool :=
  (λ g, existsb (Z.eqb g) (sort_unique Z.ltb Z.eqb (select sel groups))) <$> groups.

Definition cutoff_nonneg (c : scalar) : bool :=
  match c with
  | SBool _ => true
  | SInt z => 0 <=? z
  | SFloat f => PrimFloat.leb 0 f
  | SStr _ => false
  end.

(** The contract of the distance primitive on one call, the one made with
    these coordinates, cutoff, source atoms, bounding box and buffer: the
    call returns, the buffer keeps its length, and every source atom is
    marked.  Nothing is asked of the primitive on other arguments. *)
Definition self_inclusive
    (wd : list (list float) → scalar → list nat → list float → list float →
          list bool → outcome (list bool))
    (rows : list (list float)) (c : scalar) (source : list nat)
    (min_source max_source : list float) (results : list bool) : Prop :=
  ∃ filled,
    wd rows c source min_source max_source results = Ok filled ∧
    length filled = length results ∧
    ∀ i, i ∈ source → (i < length rows)%nat → filled !! i = Some true.

(** What a spatial query leaves in its mask once the primitive has filled
    it. *)
Definition within_result (operation : string) (filled src : list bool) : list bool :=
  if String.eqb operation "exwithin"
  then zip_with (λ b x, b && negb x) filled src
  else filled.

(** The list rule of the value matcher in the specification's words: an atom
    is selected when its value equals a member without the wildcard marker
    or matches a member that has it.  Stated apart from [fn], to compare. *)
Definition spec_list_match (re_match : string → string → outcome bool)
    (values members : list string) : outcome (list bool) :=
  omapM (λ v,
    omap (existsb id)
      (omapM (λ y, if str_contains ".*" y then re_match y v
                   else Ok (String.eqb v y)) members)) values.

(** ** A small molecule

    Five atoms: an alanine and a glycine fragment and a water oxygen, on the
    x axis. *)
Definition mol5 : Molecule := {|
  serial := AInt [1; 2; 3; 4; 5];
  name := AStr ["CA"; "HA"; "CB"; "N"; "O"];
  element := AStr ["C"; "H"; "C"; "H"; "O"];
  resname := AStr ["ALA"; "ALA"; "GLY"; "GLY"; "HOH"];
  resid := AInt [1; 1; 2; 2; 3];
  insertion := AStr [""; ""; ""; ""; ""];
  chain := AStr ["A"; "A"; "A"; "A"; "B"];
  segid := AStr ["P"; "P"; "P"; "P"; "W"];
  altloc := AStr [""; ""; ""; ""; ""];
  masses := AFloat [12; 1; 12; 1; 16]%float;
  beta := AFloat [0; -1; -1; 2; 2]%float;
  charge := AFloat [0; 0; 0; 0; 0]%float;
  coords := [[[0]; [0]; [0]]; [[1]; [0]; [0]]; [[2]; [0]; [0]];
             [[3]; [0]; [0]]; [[10]; [0]; [0]]]%float;
  numFrames := 1;
  frame := 0;
  numAtoms := 5
|}.

Definition analysis5 : gmap string ndarray :=
  list_to_map
    [("lipids", ABool [false; false; false; false; false]);
     ("ions", ABool [false; false; false; false; false]);
     ("waters", ABool [false; false; false; false; true]);
     ("protein_bb", ABool [true; false; false; true; false]);
     ("nucleic_bb", ABool [false; false; false; false; false]);
     ("sidechain", ABool [false; true; true; false; false]);
     ("protein", ABool [true; true; true; true; false]);
     ("nucleic", ABool [false; false; false; false; false]);
     ("fragments", AInt [0; 0; 0; 0; 1]);
     ("residues", AInt [0; 0; 1; 1; 2])].

Definition evaluate5 : node → outcome value :=
  evaluate re_match_fragment within_distance_ref mol5 analysis5.

(** ** The rest of the module *)

(** The loop at the head of [traverse_ast]: the children of a node, with
    the sub-nodes replaced by their values, first to last. *)
Definition resolve re_match within_distance (children : list child)
  : Py (list pyval) :=
  for_each (λ c, match c with
                 | CNode sub => traverse_ast re_match within_distance sub
                 | CScalar x => ret (VPy x)
                 | CList items => ret (VList items)
                 end) children.

(** The operation tags [traverse_ast] has a block for. *)
Definition operations : list string :=
  ["molecule"; "molprop_int_eq"; "molprop_str_eq"; "molprop_int_modulo";
   "logop"; "uminus"; "grouped"; "numprop"; "comp"; "func"; "mathop";
   "sameas"; "within"; "exwithin"].

(** The keywords of the [molecule] block that are answered by the analysis
    mapping alone, with the key each one reads. *)
Definition analysis_keywords : list (string * string) :=
  [("lipid", "lipids"); ("lipids", "lipids"); ("ion", "ions"); ("ions", "ions");
   ("water", "waters"); ("waters", "waters"); ("sidechain", "sidechain");
   ("protein", "protein"); ("nucleic", "nucleic")].

(** All the keywords of the [molecule] block. *)
Definition molecule_keywords : list string :=
  ["lipid"; "lipids"; "ion"; "ions"; "water"; "waters"; "hydrogen"; "noh";
   "backbone"; "sidechain"; "protein"; "nucleic"].

(** The array of group values that "same <prop> as" reads: the fragments
    or the residues of the analysis, or the molecule attribute that
    [molpropmap] gives for [prop]. *)
Definition group_values (m : Molecule) (a : gmap string ndarray) (prop : string)
  : option ndarray :=
  if String.eqb prop "fragment" then a !! "fragments"
  else match molpropmap !! prop with
       | Some attr => getattr m attr
       | None => if String.eqb prop "residue" then a !! "residues" else None
       end.

(** An analysis of the small molecule whose fragments array is too short:
    three entries for five atoms. *)
Definition analysis5_short_fragments : gmap string ndarray :=
  <["fragments" := AInt [0; 0; 1]]> analysis5.

(** The two messages of the [RuntimeError]s that [atomselect] raises, with
    the values interpolated in them. *)
Inductive atomselect_message :=
| Failed_to_parse_selection (selection : string) (e : exn)
| Atomselect_failed (selection : string) (e : exn) (ast : node).

(** How a call of [atomselect] ends: it returns the mask (with the tree
    when [_return_ast] is set), raises one of its two [RuntimeError]s, lets
    an exception of [analyze] through, or leaves the model.  The store is
    the one the traversal ended in. *)
Inductive atomselect_outcome :=
| Returns (mask : pyval) (ast : option node) (final : store)
| RaisesRuntimeError (msg : atomselect_message) (final : option store)
| Raises (e : exn)
| NotModelled.

Section Atomselect.

Variable re_match : string → string → outcome bool.
Variable within_distance :
  list (list float) → scalar → list nat → list float → list float →
  list bool → outcome (list bool).

(** [parser.parse(selection, debug=_debug)] of
    [moleculekit.atomselect.languageparser]. *)
Variable parse : string → bool → outcome node.

(** [analyze(mol, bonds)] of [moleculekit.atomselect.analyze]. *)
Variable bonds : Type.
Variable analyze : Molecule → bonds → outcome (gmap string ndarray).

(** [atomselect(mol, selection, bonds, _debug, _analysis, _return_ast)].
    Both [try] blocks catch every [Exception]. *)
Definition atomselect (mol : Molecule) (selection : string) (b : bonds)
    (_debug : bool) (_analysis : option (gmap string ndarray))
    (_return_ast : bool) : atomselect_outcome :=
  match (match _analysis with
         | None => analyze mol b
         | Some a => Ok a
         end) with
  | Raise e => Raises e
  | Unmodelled => NotModelled
  | Ok a =>
      match parse selection _debug with
      | Raise e => RaisesRuntimeError (Failed_to_parse_selection selection e) None
      | Unmodelled => NotModelled
      | Ok ast =>
          match traverse_ast re_match within_distance ast (initial mol a) with
          | (Raise e, final) =>
              RaisesRuntimeError (Atomselect_failed selection e ast) (Some final)
          | (Unmodelled, _) => NotModelled
          | (Ok mask, final) =>
              if _return_ast then Returns mask (Some ast) final
              else Returns mask None final
          end
      end
  end.

End Atomselect.

(** Modelled from the spec: the parser is an external collaborator that
    turns the text of a selection into a tree, or fails.  A stand-in to run
    [atomselect] on the small molecule: it knows the trees of two
    selections and raises on any other text. *)
Definition parse5 (selection : string) (_debug : bool) : outcome node :=
  if String.eqb selection "protein"
  then Ok (Node "molecule" [CScalar (SStr "protein")])
  else if String.eqb selection "sqrt(beta) < 1"
  then Ok (Node "comp"
             [CScalar (SStr "<");
              CNode (Node "func" [CScalar (SStr "sqrt");
                                  CNode (Node "numprop" [CScalar (SStr "beta")])]);
              CScalar (SInt 1)])
  else Raise ValueError.

(** Modelled from the spec: the analysis is an external collaborator that
    computes the structural masks of a molecule.  A stand-in that answers
    with the analysis of the small molecule. *)
Definition analyze5 (m : Molecule) (b : unit) : outcome (gmap string ndarray) :=
  Ok analysis5.

(** * Properties *)

(** ** The monad *)

Lemma bind_ok {A B} (c : Py A) (k : A → Py B) s a s' :
  c s = (Ok a, s') → bind c k s = k a s'.
Proof. intros H. unfold bind. by rewrite H. Qed.

Lemma bind_raise {A B} (c : Py A) (k : A → Py B) s e s' :
  c s = (Raise e, s') → bind c k s = (Raise e, s').
Proof. intros H. unfold bind. by rewrite H. Qed.

Lemma bind_lift_ok {A B} (o : outcome A) (k : A → Py B) s a :
  o = Ok a → bind (lift o) k s = k a s.
Proof. intros ->. reflexivity. Qed.

Lemma bind_ret {A B} (a : A) (k : A → Py B) s : bind (ret a) k s = k a s.
Proof. reflexivity. Qed.

Lemma bind_get_mol {B} (k : Molecule → Py B) s : bind get_mol k s = k (mol s) s.
Proof. reflexivity. Qed.

Lemma bind_alloc {B} a (k : loc → Py B) s :
  bind (alloc a) k s = k (LHeap (length (heap s))) (extend s a).
Proof. reflexivity. Qed.

Lemma bind_store_at {B} l a (k : unit → Py B) s :
  bind (store_at l a) k s = k tt (write l a s).
Proof. reflexivity. Qed.

(** ** Induction on syntax trees *)

Lemma node_induction (P : node → Prop) :
  (∀ operation children,
     (∀ sub, CNode sub ∈ children → P sub) → P (Node operation children)) →
  ∀ n, P n.
Proof.
  intros step. fix IH 1. intros [operation children]. apply step.
  revert children. fix IHcs 1. intros [|c cs] sub Hin.
  - destruct (proj1 (elem_of_nil _) Hin).
  - destruct c as [n| |].
    + destruct (proj1 (elem_of_cons _ _ _) Hin) as [Heq|Hin'].
      * injection Heq as ->. exact (IH n).
      * exact (IHcs cs sub Hin').
    + destruct (proj1 (elem_of_cons _ _ _) Hin) as [Heq|Hin'];
        [discriminate Heq|exact (IHcs cs sub Hin')].
    + destruct (proj1 (elem_of_cons _ _ _) Hin) as [Heq|Hin'];
        [discriminate Heq|exact (IHcs cs sub Hin')].
Qed.

(** ** The frame: what a run leaves alone *)

Lemma untouched_refl except s : untouched except s s.
Proof. by repeat split. Qed.

Lemma untouched_trans except s1 s2 s3 :
  untouched except s1 s2 → untouched except s2 s3 → untouched except s1 s3.
Proof.
  intros (Hm & Ha & Hh) (Hm' & Ha' & Hh'). split; [congruence|].
  split; [congruence|]. intros i arr Hi H. by apply Hh', Hh.
Qed.

Lemma untouched_weaken except s s' : untouched None s s' → untouched except s s'.
Proof.
  intros (Hm & Ha & Hh). split; [done|]. split; [done|].
  intros i arr _. by apply Hh.
Qed.

Lemma keeps_weaken {A} except (c : Py A) : keeps None c → keeps except c.
Proof. intros H s. apply untouched_weaken, H. Qed.

Lemma keeps_ret {A} except (a : A) : keeps except (ret a).
Proof. intros s. apply untouched_refl. Qed.

Lemma keeps_raise {A} except e : keeps except (@raise A e).
Proof. intros s. apply untouched_refl. Qed.

Lemma keeps_unmodelled {A} except : keeps except (@unmodelled A).
Proof. intros s. apply untouched_refl. Qed.

Lemma keeps_lift {A} except (o : outcome A) : keeps except (lift o).
Proof. intros s. apply untouched_refl. Qed.

Lemma keeps_load except l : keeps except (load l).
Proof. intros s. unfold load. destruct (read s l); apply untouched_refl. Qed.

Lemma keeps_count except : keeps except count_wd_call.
Proof. intros s. by repeat split. Qed.

Lemma keeps_get_mol except : keeps except get_mol.
Proof. intros s. apply untouched_refl. Qed.

(** An allocation adds an array after the existing ones. *)
Lemma untouched_extend except s a : untouched except s (extend s a).
Proof.
  split; [done|]. split; [done|]. intros i arr _ H. by apply lookup_app_l_Some.
Qed.

Lemma keeps_alloc except a : keeps except (alloc a).
Proof. intros s. apply untouched_extend. Qed.

(** A write into the heap array [n] touches that array only.  (A write
    through a molecule or analysis location would change the frame.) *)
Lemma keeps_store_heap n a : keeps (Some n) (store_at (LHeap n) a).
Proof.
  intros s. split; [done|]. split; [done|]. intros i arr Hi H. simpl.
  rewrite list_lookup_insert_ne; [done|congruence].
Qed.

Lemma keeps_bind {A B} except (c : Py A) (k : A → Py B) :
  keeps except c → (∀ a, keeps except (k a)) → keeps except (bind c k).
Proof.
  intros Hc Hk s. unfold bind. pose proof (Hc s) as Hs.
  destruct (c s) as [[a|e|] s']; simpl in Hs; try done.
  eapply untouched_trans; [exact Hs|apply Hk].
Qed.

(** Code that allocates an array and afterwards writes to that array only
    touches nothing that existed before. *)
Lemma keeps_alloc_then {B} a (k : loc → Py B) :
  (∀ n, keeps (Some n) (k (LHeap n))) → keeps None (bind (alloc a) k).
Proof.
  intros Hk s. rewrite bind_alloc.
  destruct (Hk (length (heap s)) (extend s a)) as (Hm & Ha & Hh).
  split; [done|]. split; [done|]. intros i arr _ H.
  apply Hh; [|by apply lookup_app_l_Some].
  apply lookup_lt_Some in H. intros [= Heq]. lia.
Qed.

Lemma keeps_for_each {A B} except (f : A → Py B) (l : list A) :
  (∀ x, x ∈ l → keeps except (f x)) → keeps except (for_each f l).
Proof.
  induction l as [|x l IH]; intros Hf; simpl.
  - apply keeps_ret.
  - apply keeps_bind; [apply Hf; left|intros y].
    apply keeps_bind; [|intros; apply keeps_ret].
    apply IH. intros z Hz. apply Hf. by right.
Qed.

Create HintDb frame discriminated.
#[local] Hint Resolve keeps_ret keeps_raise keeps_unmodelled keeps_lift
  keeps_load keeps_alloc keeps_count keeps_get_mol keeps_store_heap : frame.

(** One step of a frame proof: split a bind, decide a test, or close the
    goal on a primitive. *)
Ltac frame_step :=
  match goal with
  | |- keeps _ (bind _ _) => apply keeps_bind; [|intros ?]
  | |- keeps _ (if ?b then _ else _) => destruct b
  | |- keeps _ (match ?x with _ => _ end) => destruct x
  | |- keeps _ _ => solve [auto with frame]
  end.
Ltac frame := repeat frame_step.

Section Frame.
Context (re_match : string → string → outcome bool).
Context (within_distance :
  list (list float) → scalar → list nat → list float → list float →
  list bool → outcome (list bool)).

Lemma keeps_item except node i : keeps except (item node i).
Proof. unfold item. frame. Qed.

Lemma keeps_analysis_get except key : keeps except (analysis_get key).
Proof.
  intros s. unfold analysis_get.
  destruct (analysis s !! key); apply untouched_refl.
Qed.

Lemma keeps_mol_getattr except attr : keeps except (mol_getattr attr).
Proof.
  intros s. unfold mol_getattr.
  destruct (getattr (mol s) attr); apply untouched_refl.
Qed.

Lemma keeps_coords_column except k : keeps except (coords_column k).
Proof.
  intros s. unfold coords_column.
  destruct (frame (mol s) <? numFrames (mol s))%nat; [|apply untouched_refl].
  destruct (coords_axis (mol s) k); apply untouched_refl.
Qed.

Lemma keeps_frame_rows except : keeps except frame_rows.
Proof.
  intros s. unfold frame_rows.
  destruct (frame (mol s) <? numFrames (mol s))%nat; [|apply untouched_refl].
  destruct (coords_frame (mol s)); apply untouched_refl.
Qed.

Lemma keeps_fetch except v : keeps except (fetch v).
Proof. unfold fetch. frame. Qed.

Lemma keeps_emit except r : keeps except (emit r).
Proof. unfold emit. frame. Qed.

Hint Resolve keeps_item keeps_analysis_get keeps_mol_getattr
  keeps_coords_column keeps_frame_rows keeps_fetch keeps_emit : frame.

Lemma keeps_binary except op v w : keeps except (binary op v w).
Proof. unfold binary. frame. Qed.

Lemma keeps_unary except op v : keeps except (unary op v).
Proof. unfold unary. frame. Qed.

Hint Resolve keeps_binary keeps_unary : frame.

Lemma keeps_fn except x y : keeps except (fn re_match x y).
Proof. unfold fn, isin_list, match_pairs, match_each. frame. Qed.

Lemma keeps_load_bools except l : keeps except (load_bools l).
Proof. unfold load_bools. frame. Qed.

Hint Resolve keeps_fn keeps_load_bools : frame.

(** The spatial query writes twice, both times into the mask it allocated
    itself. *)
Lemma keeps_op_within except operation node :
  keeps except (op_within within_distance operation node).
Proof.
  apply keeps_weaken. unfold op_within.
  apply keeps_bind; [frame|intros m].
  apply keeps_alloc_then. intros n. frame.
Qed.

Lemma keeps_apply_operation except operation node :
  keeps except (apply_operation re_match within_distance operation node).
Proof.
  unfold apply_operation.
  repeat match goal with
         | |- keeps _ (if ?b then _ else _) => destruct b
         end;
    try apply keeps_op_within;
    unfold op_molecule, op_molprop_eq, op_molprop_int_modulo, op_logop,
      op_uminus, op_grouped, op_numprop, op_comp, op_func, op_mathop,
      op_sameas, same_values, molpropmap_item, arange_numAtoms;
    frame.
Qed.

Lemma keeps_traverse_ast except n :
  keeps except (traverse_ast re_match within_distance n).
Proof.
  induction n as [operation children IH] using node_induction.
  simpl. apply keeps_bind; [|intros; apply keeps_apply_operation].
  apply keeps_for_each. intros [sub| |] Hin; [by apply IH|frame..].
Qed.

End Frame.

(** ** The store *)

Lemma read_extend_new s a : read (extend s a) (LHeap (length (heap s))) = Some a.
Proof. simpl. by apply list_lookup_middle. Qed.

Lemma read_extend_old s a l arr : read s l = Some arr → read (extend s a) l = Some arr.
Proof.
  destruct l as [attr|k|key|n]; simpl; try done.
  intros H. by apply lookup_app_l_Some.
Qed.

Lemma read_heap_bound s n arr : read s (LHeap n) = Some arr → (n < length (heap s))%nat.
Proof. simpl. apply lookup_lt_Some. Qed.

(** A write into the newest heap array leaves every older array as it was. *)
Lemma read_write_other s n a l arr :
  read s l = Some arr → l ≠ LHeap n → read (write (LHeap n) a s) l = Some arr.
Proof.
  destruct l as [attr|k|key|n']; simpl; try done.
  intros H Hne. rewrite list_lookup_insert_ne; [done|congruence].
Qed.

Lemma read_write_same s n a :
  (n < length (heap s))%nat → read (write (LHeap n) a s) (LHeap n) = Some a.
Proof. intros H. simpl. by apply list_lookup_insert_eq. Qed.

Lemma load_ok s l arr : read s l = Some arr → load l s = (Ok arr, s).
Proof. intros H. unfold load. by rewrite H. Qed.

Lemma fetch_array s l arr : read s l = Some arr → fetch (VArr l) s = (Ok (OArr arr), s).
Proof. intros H. unfold fetch, bind. by rewrite (load_ok _ _ _ H). Qed.

Lemma bind_fetch_array {B} s l arr (k : operand → Py B) :
  read s l = Some arr → bind (fetch (VArr l)) k s = k (OArr arr) s.
Proof. intros H. by rewrite (bind_ok _ _ _ _ _ (fetch_array _ _ _ H)). Qed.

Lemma bind_load_bools {B} s l bits (k : list bool → Py B) :
  read s l = Some (ABool bits) → bind (load_bools l) k s = k bits s.
Proof.
  intros H. unfold load_bools.
  unfold bind at 1. by rewrite (bind_ok _ _ _ _ _ (load_ok _ _ _ H)).
Qed.

(** ** Reading the result of a run *)

Lemma evaluate_array re wd m a n arr :
  evaluate re wd m a n = Ok (Array arr) →
  ∃ l s, traverse_ast re wd n (initial m a) = (Ok (VArr l), s) ∧ read s l = Some arr.
Proof.
  unfold evaluate.
  destruct (traverse_ast re wd n (initial m a)) as [[v|e|] s]; try done.
  destruct v as [x|x|items|l]; simpl; try done.
  destruct (read s l) as [arr'|] eqn:E; simpl; [|done].
  intros [= ->]. eauto.
Qed.

Lemma evaluate_intro re wd m a n l s arr :
  traverse_ast re wd n (initial m a) = (Ok (VArr l), s) → read s l = Some arr →
  evaluate re wd m a n = Ok (Array arr).
Proof. intros H Hr. unfold evaluate. rewrite H. simpl. by rewrite Hr. Qed.

(** A node with one literal and one sub-node: the sub-node runs, then the
    operation. *)
Lemma traverse_ast_lit_node re wd operation x sub s :
  traverse_ast re wd (Node operation [CScalar x; CNode sub]) s =
  bind (traverse_ast re wd sub)
       (λ v, apply_operation re wd operation [VStr operation; VPy x; v]) s.
Proof.
  simpl. unfold bind, ret.
  by destruct (traverse_ast re wd sub s) as [[v|e|] s'].
Qed.

Lemma bind_item {B} node i v (k : pyval → Py B) s :
  node !! i = Some v → bind (item node i) k s = k v s.
Proof. intros H. unfold bind, item. by rewrite H. Qed.

Lemma traverse_ast_frame re wd n s o s' :
  traverse_ast re wd n s = (o, s') → mol s' = mol s ∧ analysis s' = analysis s.
Proof.
  intros H. destruct (keeps_traverse_ast re wd None n s) as (Hm & Ha & _).
  by rewrite H in Hm, Ha.
Qed.

(** ** Negation *)

Lemma unary_invert_mask s l mask :
  read s l = Some (ABool mask) →
  unary Invert (VArr l) s =
  (Ok (VArr (LHeap (length (heap s)))), extend s (ABool (negb <$> mask))).
Proof.
  intros H. unfold unary, bind. by rewrite (fetch_array _ _ _ H).
Qed.

Lemma logop_not re wd v s :
  apply_operation re wd "logop" [VStr "logop"; VStr "not"; v] s = unary Invert v s.
Proof. reflexivity. Qed.

(** C3. For every subtree [S] that evaluates to a boolean mask, the node
    [("logop", "not", S)] evaluates to the elementwise complement of that
    mask. *)
Theorem not_is_complement re wd m a (S : node) (mask : list bool) :
  evaluate re wd m a S = Ok (Array (ABool mask)) →
  evaluate re wd m a (Node "logop" [CScalar (SStr "not"); CNode S])
  = Ok (Array (ABool (negb <$> mask))).
Proof.
  intros H. apply evaluate_array in H as (l & s & Hrun & Hread).
  eapply evaluate_intro.
  - rewrite traverse_ast_lit_node, (bind_ok _ _ _ _ _ Hrun), logop_not.
    by apply unary_invert_mask.
  - apply read_extend_new.
Qed.

(** ** Broadcasting against a scalar *)

Lemma bzip_scalar_r {A B C} (f : A → B → C) la y :
  bzip f la [y] = Ok ((λ a, f a y) <$> la).
Proof. by destruct la as [|x [|x' la]]. Qed.

Lemma existsb_fmap {A B} (f : A → B) (p : B → bool) l :
  existsb p (f <$> l) = existsb (λ x, p (f x)) l.
Proof. induction l as [|x l IH]; csimpl; [done|by rewrite IH]. Qed.

(** ** The empty source of a spatial query *)

Lemma within_empty_source re wd operation cutoff l src s :
  operation = "within" ∨ operation = "exwithin" →
  read s l = Some (ABool src) → existsb id src = false →
  apply_operation re wd operation [VStr operation; cutoff; VArr l] s =
  (Ok (VArr (LHeap (length (heap s)))),
   extend s (ABool (replicate (numAtoms (mol s)) false))).
Proof.
  intros Hop Hread Hnone.
  assert (apply_operation re wd operation [VStr operation; cutoff; VArr l] s
          = op_within wd operation [VStr operation; cutoff; VArr l] s) as ->
    by (by destruct Hop as [-> | ->]).
  unfold op_within.
  rewrite bind_get_mol, bind_alloc.
  rewrite (bind_item _ 1 cutoff), (bind_item _ 2 (VArr l)) by done.
  rewrite (bind_fetch_array _ _ (ABool src)) by (by apply read_extend_old).
  rewrite (bind_lift_ok _ _ _ false) by (simpl; by rewrite Hnone).
  reflexivity.
Qed.

(** C5. When the source subtree of a [within] or [exwithin] node evaluates
    to a mask that selects no atom, the node returns, for every cutoff, a
    fresh all-false mask of length [numAtoms]; the count of calls to the
    distance primitive is the one reached after the source subtree, and the
    result is the same for every primitive: it is not invoked. *)
Theorem empty_source_gives_empty_mask re wd operation (c : scalar) (S : node)
    s l src s' :
  operation = "within" ∨ operation = "exwithin" →
  traverse_ast re wd S s = (Ok (VArr l), s') →
  read s' l = Some (ABool src) →
  existsb id src = false →
  ∃ mask final,
    traverse_ast re wd (Node operation [CScalar c; CNode S]) s
      = (Ok (VArr mask), final) ∧
    read final mask = Some (ABool (replicate (numAtoms (mol s)) false)) ∧
    wd_calls final = wd_calls s' ∧
    mask = LHeap (length (heap s')).
Proof.
  intros Hop Hrun Hread Hnone.
  destruct (traverse_ast_frame _ _ _ _ _ _ Hrun) as [Hmol _].
  eexists _, _. split; [|split; [|split]].
  - rewrite traverse_ast_lit_node, (bind_ok _ _ _ _ _ Hrun).
    by apply within_empty_source with src.
  - rewrite <- Hmol. apply read_extend_new.
  - reflexivity.
  - reflexivity.
Qed.

(** ** Square roots *)

Lemma float_of_Z_0 : float_of_Z 0 = 0%float.
Proof. reflexivity. Qed.

Lemma negative_check arr :
  has_negative arr = true →
  obind (host_binop Lt (OArr arr) (OPy (SInt 0))) (λ r, np_any (nresult_operand r))
  = Ok true.
Proof.
  destruct arr as [bs|zs|fs|ss]; simpl; try done; intros H.
  - unfold host_binop, np_binop. simpl. rewrite bzip_scalar_r. simpl.
    rewrite existsb_fmap. unfold id. by rewrite H.
  - unfold host_binop, np_binop. simpl. rewrite bzip_scalar_r. simpl.
    rewrite existsb_fmap, float_of_Z_0. unfold id. by rewrite H.
Qed.

Lemma func_sqrt_negative re wd l arr s :
  read s l = Some arr → has_negative arr = true →
  apply_operation re wd "func" [VStr "func"; VStr "sqrt"; VArr l] s
  = (Raise (RuntimeError (Negative_values_in_sqrt_call (VArr l))), s).
Proof.
  intros Hread Hneg. apply negative_check in Hneg.
  change (apply_operation re wd "func" [VStr "func"; VStr "sqrt"; VArr l] s)
    with (bind (fetch (VArr l))
            (λ a, let* neg := lift (host_binop Lt a (OPy (SInt 0))) in
                  let* any := lift (np_any (nresult_operand neg)) in
                  if any
                  then raise (RuntimeError (Negative_values_in_sqrt_call (VArr l)))
                  else let* v' := item [VStr "func"; VStr "sqrt"; VArr l] 2 in
                       unary Sqrt v') s).
  rewrite (bind_ok _ _ _ _ _ (fetch_array _ _ _ Hread)).
  unfold bind, lift.
  destruct (host_binop Lt (OArr arr) (OPy (SInt 0))) as [r| |]; simpl in Hneg; try done.
  by rewrite Hneg.
Qed.

(** C6. When the operand of a [sqrt] node is a numeric array with a negative
    element, the node raises the [RuntimeError] "Negative values in sqrt()
    call" carrying the operand.  The run ends in the store reached after the
    operand: the test comes first, no root is computed and no array (so no
    NaN) is returned. *)
Theorem sqrt_of_negative_raises re wd (S : node) s l arr s' :
  traverse_ast re wd S s = (Ok (VArr l), s') →
  read s' l = Some arr →
  has_negative arr = true →
  traverse_ast re wd (Node "func" [CScalar (SStr "sqrt"); CNode S]) s
  = (Raise (RuntimeError (Negative_values_in_sqrt_call (VArr l))), s').
Proof.
  intros Hrun Hread Hneg.
  rewrite traverse_ast_lit_node, (bind_ok _ _ _ _ _ Hrun).
  by apply func_sqrt_negative with arr.
Qed.

(** ** Nodes whose children are literals *)

Lemma traverse_ast_literals2 re wd operation x y s :
  traverse_ast re wd (Node operation [CScalar x; CScalar y]) s
  = apply_operation re wd operation [VStr operation; VPy x; VPy y] s.
Proof. reflexivity. Qed.

Lemma traverse_ast_literals3 re wd operation x y z s :
  traverse_ast re wd (Node operation [CScalar x; CScalar y; CScalar z]) s
  = apply_operation re wd operation [VStr operation; VPy x; VPy y; VPy z] s.
Proof. reflexivity. Qed.

(** ** The property-modulo node *)

(** A name that is not a key of [molpropmap] stops the modulo node at the
    lookup [molpropmap[molprop]]. *)
Lemma modulo_unmapped_property re wd (prop : string) v1 v2 s :
  molpropmap !! prop = None →
  apply_operation re wd "molprop_int_modulo"
    [VStr "molprop_int_modulo"; VStr prop; v1; v2] s
  = (Raise (KeyError (VStr prop)), s).
Proof.
  intros Hnone.
  change (apply_operation re wd "molprop_int_modulo"
            [VStr "molprop_int_modulo"; VStr prop; v1; v2] s)
    with (op_molprop_int_modulo [VStr "molprop_int_modulo"; VStr prop; v1; v2] s).
  unfold op_molprop_int_modulo.
  rewrite (bind_item _ 1 (VStr prop)), (bind_item _ 2 v1), (bind_item _ 3 v2) by done.
  unfold molpropmap_item, bind, lift. simpl. by rewrite Hnone.
Qed.

Lemma molprop_eq_index re wd op y s :
  op = "molprop_int_eq" ∨ op = "molprop_str_eq" →
  apply_operation re wd op [VStr op; VStr "index"; y] s
  = bind arange_numAtoms (λ x, fn re x y) s.
Proof. by intros [-> | ->]. Qed.

Lemma molprop_eq_residue re wd op y s :
  op = "molprop_int_eq" ∨ op = "molprop_str_eq" →
  apply_operation re wd op [VStr op; VStr "residue"; y] s
  = bind (analysis_get "residues") (λ x, fn re x y) s.
Proof. by intros [-> | ->]. Qed.

(** C9. The property-modulo node looks its property up in [molpropmap]
    only: for the synthetic properties [index] and [residue], which are not
    keys of the map, evaluation raises [KeyError] and returns no mask, while
    the property-equals node on the same name goes on to match the values
    ([0..N-1], or [analysis["residues"]]). *)
Theorem modulo_rejects_index_and_residue re wd (prop : string)
    (divisor remainder value : scalar) s :
  prop = "index" ∨ prop = "residue" →
  molpropmap !! prop = None ∧
  traverse_ast re wd
    (Node "molprop_int_modulo"
       [CScalar (SStr prop); CScalar divisor; CScalar remainder]) s
  = (Raise (KeyError (VStr prop)), s) ∧
  traverse_ast re wd
    (Node "molprop_int_eq" [CScalar (SStr prop); CScalar value]) s
  = bind (if String.eqb prop "index" then arange_numAtoms
          else analysis_get "residues")
         (λ x, fn re x (VPy value)) s.
Proof.
  intros Hprop.
  assert (molpropmap !! prop = None) as Hnone by (by destruct Hprop as [-> | ->]).
  split; [done|split].
  - rewrite traverse_ast_literals3. by apply modulo_unmapped_property.
  - rewrite traverse_ast_literals2.
    destruct Hprop as [-> | ->]; [by apply molprop_eq_index; left|].
    by apply molprop_eq_residue; left.
Qed.

(** ** The value matcher *)

(** A list query never reaches the pattern branch: [not isinstance(y, str)]
    holds for every list. *)
Lemma fn_list_is_membership re x items :
  fn re x (VList items) = isin_list x items.
Proof. reflexivity. Qed.

Lemma fn_string re x (y : string) :
  fn re x (VStr y) =
  if str_contains ".*" y then match_each re x (VStr y) else binary Eq x (VStr y).
Proof. unfold fn. simpl. by destruct (str_contains ".*" y). Qed.

Lemma binary_eq_strings s l xs (y : string) :
  read s l = Some (AStr xs) →
  binary Eq (VArr l) (VStr y) s =
  (Ok (VArr (LHeap (length (heap s)))),
   extend s (ABool ((λ xx, String.eqb xx y) <$> xs))).
Proof.
  intros H. unfold binary.
  rewrite (bind_fetch_array _ _ _ _ H). cbn [fetch]. rewrite bind_ret.
  rewrite (bind_lift_ok _ _ _ (RArr (ABool ((λ xx, String.eqb xx y) <$> xs)))).
  - reflexivity.
  - unfold host_binop, np_binop. simpl. by rewrite bzip_scalar_r.
Qed.

(** C10. A single string query is handed to [re.match] exactly when it
    contains the substring [".*"].  Any other string, whatever
    metacharacters it holds, is compared with [==]: on a string array the
    result is the mask of the elements equal to the query, and the regular
    expression engine plays no part. *)
Theorem single_string_pattern_only_with_wildcard re (y : string) s l xs :
  read s l = Some (AStr xs) →
  (∀ x, fn re x (VStr y) =
        if str_contains ".*" y then match_each re x (VStr y)
        else binary Eq x (VStr y)) ∧
  fn re (VArr l) (VStr y) s =
    if str_contains ".*" y then match_each re (VArr l) (VStr y) s
    else (Ok (VArr (LHeap (length (heap s)))),
          extend s (ABool ((λ xx, String.eqb xx y) <$> xs))).
Proof.
  intros H. split; [intros x; apply fn_string|].
  rewrite fn_string. destruct (str_contains ".*" y); [done|].
  by apply binary_eq_strings.
Qed.

(** ** Logical nodes *)

Lemma bzip_same_length {A B C} (f : A → B → C) la lb :
  length la = length lb → bzip f la lb = Ok (zip_with f la lb).
Proof. intros H. unfold bzip. by rewrite H, Nat.eqb_refl. Qed.

Lemma logop_binary re wd (op : string) (o : binop) l r s :
  (op = "and" ∧ o = And) ∨ (op = "or" ∧ o = Or) →
  apply_operation re wd "logop" [VStr "logop"; VStr op; l; r] s = binary o l r s.
Proof. by intros [[-> ->] | [-> ->]]. Qed.

Lemma binary_arrays op s l1 l2 a1 a2 :
  read s l1 = Some a1 → read s l2 = Some a2 →
  binary op (VArr l1) (VArr l2) s =
  match np_binop op a1 a2 with
  | Ok r => (Ok (VArr (LHeap (length (heap s)))), extend s r)
  | Raise e => (Raise e, s)
  | Unmodelled => (Unmodelled, s)
  end.
Proof.
  intros H1 H2. unfold binary.
  rewrite (bind_fetch_array _ _ _ _ H1), (bind_fetch_array _ _ _ _ H2).
  unfold bind, lift, host_binop. simpl.
  by destruct (np_binop op a1 a2).
Qed.

Lemma unary_array op s l a :
  op = Neg ∨ op = Invert →
  read s l = Some a →
  unary op (VArr l) s =
  match np_unop op a with
  | Ok r => (Ok (VArr (LHeap (length (heap s)))), extend s r)
  | Raise e => (Raise e, s)
  | Unmodelled => (Unmodelled, s)
  end.
Proof.
  intros Hop H. unfold unary. rewrite (bind_fetch_array _ _ _ _ H).
  unfold bind, lift.
  by destruct Hop as [-> | ->]; destruct a.
Qed.

(** A floating-point array beside a boolean, an integer or a
    floating-point array, of any length and on either side: numpy has no
    [&] or [|] for the pair. *)
Lemma float_operand_has_no_bitwise_operator (op : binop) fs other :
  op = And ∨ op = Or →
  is_Some (floats_of other) →
  np_binop op (AFloat fs) other = Raise TypeError ∧
  np_binop op other (AFloat fs) = Raise TypeError.
Proof.
  intros Hop [vs Hvs].
  destruct other as [bs|zs|gs|ss]; [| | |done];
    by destruct Hop as [-> | ->].
Qed.

(** C2, as the code has it.  A logical node hands its operands to Python's
    [&], [|] and [~] without looking at their type.  Integer arrays (of
    equal length) are therefore accepted, and the node returns their bitwise
    combination.  A floating-point array is refused, by the operator
    itself, with [TypeError]: as the operand of [not], and as either operand
    of [and] and [or] whatever boolean, integer or floating-point array
    stands on the other side (a mask beside a float property, as in
    "protein and beta", included) and whatever the two lengths. *)
Theorem logical_nodes_leave_typing_to_the_host re wd s li lj lf lo
    (xs ys : list Z) (fs : list float) (other : ndarray) :
  read s li = Some (AInt xs) →
  read s lj = Some (AInt ys) →
  length xs = length ys →
  read s lf = Some (AFloat fs) →
  read s lo = Some other →
  is_Some (floats_of other) →
  let logop op operands :=
    apply_operation re wd "logop" (VStr "logop" :: VStr op :: operands) s in
  let fresh := VArr (LHeap (length (heap s))) in
  logop "and" [VArr li; VArr lj] = (Ok fresh, extend s (AInt (zip_with Z.land xs ys))) ∧
  logop "or" [VArr li; VArr lj] = (Ok fresh, extend s (AInt (zip_with Z.lor xs ys))) ∧
  logop "not" [VArr li] = (Ok fresh, extend s (AInt ((λ z, - 1 - z) <$> xs))) ∧
  logop "and" [VArr lf; VArr lo] = (Raise TypeError, s) ∧
  logop "and" [VArr lo; VArr lf] = (Raise TypeError, s) ∧
  logop "or" [VArr lf; VArr lo] = (Raise TypeError, s) ∧
  logop "or" [VArr lo; VArr lf] = (Raise TypeError, s) ∧
  logop "not" [VArr lf] = (Raise TypeError, s).
Proof.
  intros Hi Hj Hlen Hf Ho Hnum logop fresh. subst logop fresh. cbv beta.
  destruct (float_operand_has_no_bitwise_operator And fs other) as [Hand1 Hand2];
    [by left|done|].
  destruct (float_operand_has_no_bitwise_operator Or fs other) as [Hor1 Hor2];
    [by right|done|].
  split; [|split; [|split; [|split; [|split; [|split; [|split]]]]]].
  - rewrite (logop_binary _ _ "and" And) by auto.
    rewrite (binary_arrays _ _ _ _ _ _ Hi Hj). unfold np_binop. simpl.
    by rewrite bzip_same_length.
  - rewrite (logop_binary _ _ "or" Or) by auto.
    rewrite (binary_arrays _ _ _ _ _ _ Hi Hj). unfold np_binop. simpl.
    by rewrite bzip_same_length.
  - rewrite logop_not. by rewrite (unary_array Invert _ _ _ (or_intror eq_refl) Hi).
  - rewrite (logop_binary _ _ "and" And) by auto.
    by rewrite (binary_arrays _ _ _ _ _ _ Hf Ho), Hand1.
  - rewrite (logop_binary _ _ "and" And) by auto.
    by rewrite (binary_arrays _ _ _ _ _ _ Ho Hf), Hand2.
  - rewrite (logop_binary _ _ "or" Or) by auto.
    by rewrite (binary_arrays _ _ _ _ _ _ Hf Ho), Hor1.
  - rewrite (logop_binary _ _ "or" Or) by auto.
    by rewrite (binary_arrays _ _ _ _ _ _ Ho Hf), Hor2.
  - rewrite logop_not. by rewrite (unary_array Invert _ _ _ (or_intror eq_refl) Hf).
Qed.

(** ** Group expansion *)

Lemma elem_of_select_fmap {A} (f : A → bool) (l : list A) x :
  x ∈ select (f <$> l) l ↔ x ∈ l ∧ f x = true.
Proof.
  induction l as [|y l IH]; csimpl.
  - rewrite elem_of_nil. tauto.
  - destruct (f y) eqn:E; rewrite ?elem_of_cons, IH, ?elem_of_cons.
    + split; [intros [->|[??]]; auto|tauto].
    + split; [tauto|intros [[->|?] ?]; [congruence|auto]].
Qed.

Lemma elem_of_insert_unique (x y : Z) l :
  y ∈ insert_unique Z.ltb Z.eqb x l ↔ y = x ∨ y ∈ l.
Proof.
  induction l as [|z l IH]; simpl.
  - rewrite list_elem_of_singleton, elem_of_nil. tauto.
  - destruct (Z.eqb_spec x z) as [->|Hne].
    + rewrite elem_of_cons. tauto.
    + destruct (x <? z); rewrite !elem_of_cons, ?IH; tauto.
Qed.

Lemma elem_of_sort_unique (y : Z) l : y ∈ sort_unique Z.ltb Z.eqb l ↔ y ∈ l.
Proof.
  induction l as [|x l IH]; simpl; [done|].
  by rewrite elem_of_insert_unique, IH, elem_of_cons.
Qed.

Lemma existsb_eqb_elem_of (g : Z) l : existsb (Z.eqb g) l = true ↔ g ∈ l.
Proof.
  rewrite existsb_exists, list_elem_of_In. split.
  - by intros (x & Hin & ->%Z.eqb_eq).
  - intros Hin. exists g. by rewrite Z.eqb_refl.
Qed.

Lemma length_group_mask groups sel : length (group_mask groups sel) = length groups.
Proof. unfold group_mask. apply length_fmap. Qed.

(** Expanding an expanded mask changes nothing. *)
Lemma group_mask_idempotent groups sel :
  group_mask groups (group_mask groups sel) = group_mask groups sel.
Proof.
  unfold group_mask at 1 3. apply Forall_fmap_ext_1, Forall_forall.
  intros g Hg. apply Bool.eq_iff_eq_true.
  rewrite !existsb_eqb_elem_of, !elem_of_sort_unique.
  unfold group_mask. rewrite elem_of_select_fmap.
  rewrite existsb_eqb_elem_of, elem_of_sort_unique. tauto.
Qed.

Lemma same_values_mask s lv ls groups sel :
  read s lv = Some (AInt groups) →
  read s ls = Some (ABool sel) →
  length sel = length groups →
  same_values (VArr lv) (VArr ls) s =
  (Ok (VArr (LHeap (length (heap s)))), extend s (ABool (group_mask groups sel))).
Proof.
  intros Hv Hs Hlen. unfold same_values.
  rewrite (bind_fetch_array _ _ _ _ Hv).
  rewrite (bind_lift_ok _ _ _ (AInt groups)) by done.
  rewrite (bind_fetch_array _ _ _ _ Hs).
  rewrite (bind_lift_ok _ _ _ (RArr (AInt (select sel groups))))
    by (simpl; by rewrite Hlen, Nat.eqb_refl).
  rewrite (bind_lift_ok _ _ _ (AInt (sort_unique Z.ltb Z.eqb (select sel groups))))
    by done.
  by rewrite (bind_lift_ok _ _ _ (ABool (group_mask groups sel))).
Qed.

Lemma sameas_residue re wd sel s res :
  analysis s !! "residues" = Some res →
  apply_operation re wd "sameas" [VStr "sameas"; VStr "residue"; sel] s
  = same_values (VArr (LAnalysis "residues")) sel s.
Proof.
  intros H.
  change (apply_operation re wd "sameas" [VStr "sameas"; VStr "residue"; sel] s)
    with (bind (analysis_get "residues") (λ values, same_values values sel) s).
  rewrite (bind_ok _ _ _ (VArr (LAnalysis "residues")) s); [done|].
  unfold analysis_get. by rewrite H.
Qed.

(** C7. "same residue as" is idempotent.  For every subtree [S] that
    evaluates to a mask over the atoms, "same residue as S" evaluates to
    the mask of the atoms whose residue occurs among the selected ones, and
    "same residue as (same residue as S)" evaluates to that same mask. *)
Theorem same_residue_idempotent re wd m a (S : node) sel residues :
  evaluate re wd m a S = Ok (Array (ABool sel)) →
  a !! "residues" = Some (AInt residues) →
  length sel = length residues →
  let once := Node "sameas" [CScalar (SStr "residue"); CNode S] in
  let twice := Node "sameas" [CScalar (SStr "residue"); CNode once] in
  evaluate re wd m a once = Ok (Array (ABool (group_mask residues sel))) ∧
  evaluate re wd m a twice = evaluate re wd m a once.
Proof.
  intros HS Hres Hlen once twice.
  apply evaluate_array in HS as (l & s & Hrun & Hread).
  destruct (traverse_ast_frame _ _ _ _ _ _ Hrun) as [_ Ha]. simpl in Ha.
  assert (traverse_ast re wd once (initial m a)
          = (Ok (VArr (LHeap (length (heap s)))),
             extend s (ABool (group_mask residues sel)))) as Honce.
  { unfold once. rewrite traverse_ast_lit_node, (bind_ok _ _ _ _ _ Hrun).
    rewrite (sameas_residue _ _ _ _ (AInt residues)) by (by rewrite Ha).
    apply same_values_mask; [by simpl; rewrite Ha|done..]. }
  assert (evaluate re wd m a once = Ok (Array (ABool (group_mask residues sel))))
    as Hev by (eapply evaluate_intro; [exact Honce|apply read_extend_new]).
  split; [exact Hev|]. rewrite Hev.
  eapply evaluate_intro.
  - unfold twice. rewrite traverse_ast_lit_node, (bind_ok _ _ _ _ _ Honce).
    rewrite (sameas_residue _ _ _ _ (AInt residues)) by (by simpl; rewrite Ha).
    apply same_values_mask.
    + by simpl; rewrite Ha.
    + apply read_extend_new.
    + apply length_group_mask.
  - rewrite group_mask_idempotent. apply read_extend_new.
Qed.

(** ** The spatial query *)

Lemma read_counted s l : read (counted s) l = read s l.
Proof. by destruct l. Qed.

Lemma bind_count {B} (k : unit → Py B) s : bind count_wd_call k s = k tt (counted s).
Proof. reflexivity. Qed.

Lemma frame_rows_ok s rows :
  (frame (mol s) < numFrames (mol s))%nat → coords_frame (mol s) = Some rows →
  frame_rows s = (Ok rows, s).
Proof.
  intros Hlt Hrows. unfold frame_rows. rewrite Hrows.
  by destruct (Nat.ltb_spec (frame (mol s)) (numFrames (mol s))); [|lia].
Qed.

Lemma select_nonempty {A} (m : list bool) (l : list A) :
  existsb id m = true → length m = length l → select m l ≠ [].
Proof.
  revert l. induction m as [|b m IH]; intros [|x l]; simpl; try done.
  destruct b; simpl; [done|]. intros H [= Hlen]. by apply IH.
Qed.

Lemma reduce_rows_ok f rows : rows ≠ [] → ∃ r, reduce_rows f rows = Ok r.
Proof. destruct rows; [done|]. simpl. eauto. Qed.

Lemma elem_of_where_from {A} (nz : A → bool) k l i x :
  l !! i = Some x → nz x = true → (k + i)%nat ∈ where_from nz k l.
Proof.
  revert k i. induction l as [|y l IH]; intros k [|i]; simpl; try done.
  - intros [= ->] ->. rewrite Nat.add_0_r. left.
  - intros Hi Hx. replace (k + S i)%nat with (S k + i)%nat by lia.
    destruct (nz y); [right|]; by apply IH.
Qed.

(** The source atoms are among the indices handed to the primitive. *)
Lemma source_in_where src i :
  src !! i = Some true → i ∈ where_from id 0%nat src.
Proof. intros H. by apply (elem_of_where_from id 0%nat src i true). Qed.

(** A run of the spatial query whose source selects some atom: the primitive
    is called once on the frame's coordinates, the source indices and the
    bounding box of the source, and fills the mask; [exwithin] then clears
    the source atoms. *)
Lemma op_within_run wd operation c l src s rows mins maxs filled :
  read s l = Some (ABool src) →
  existsb id src = true →
  (frame (mol s) < numFrames (mol s))%nat →
  coords_frame (mol s) = Some rows →
  length src = length rows →
  reduce_rows fmin (select src rows) = Ok mins →
  reduce_rows fmax (select src rows) = Ok maxs →
  wd rows c (where_from id 0%nat src) mins maxs
     (replicate (numAtoms (mol s)) false) = Ok filled →
  length filled = length src →
  ∃ final,
    op_within wd operation [VStr operation; VPy c; VArr l] s
      = (Ok (VArr (LHeap (length (heap s)))), final) ∧
    read final (LHeap (length (heap s)))
      = Some (ABool (within_result operation filled src)).
Proof.
  intros Hread Hany Hframe Hrows Hlen Hmin Hmax Hwd Hfilled.
  set (zeros := ABool (replicate (numAtoms (mol s)) false)).
  set (n := length (heap s)).
  assert (read (extend s zeros) l = Some (ABool src)) as Hread1
    by (by apply read_extend_old).
  assert (l ≠ LHeap n) as Hl.
  { intros ->. apply read_heap_bound in Hread. unfold n in Hread. lia. }
  assert (n < length (heap (counted (extend s zeros))))%nat as Hn
    by (simpl; rewrite length_app; simpl; lia).
  unfold op_within.
  rewrite bind_get_mol, bind_alloc. fold zeros n.
  rewrite (bind_item _ 1 (VPy c)), (bind_item _ 2 (VArr l)) by done.
  rewrite (bind_fetch_array _ _ _ _ Hread1).
  rewrite (bind_lift_ok _ _ _ true) by (simpl; by rewrite Hany).
  cbn [negb].
  rewrite (bind_ok _ _ _ _ _ (frame_rows_ok (extend s zeros) rows Hframe Hrows)).
  rewrite (bind_lift_ok _ _ _ (select src rows))
    by (simpl; by rewrite Hlen, Nat.eqb_refl).
  rewrite (bind_lift_ok _ _ _ mins), (bind_lift_ok _ _ _ maxs) by done.
  rewrite (bind_lift_ok _ _ _ (where_from id 0%nat src)) by done.
  rewrite (bind_lift_ok _ _ _ c) by done.
  rewrite (bind_load_bools _ _ (replicate (numAtoms (mol s)) false))
    by apply read_extend_new.
  rewrite bind_count, (bind_lift_ok _ _ _ filled) by done.
  rewrite bind_store_at.
  set (s3 := write (LHeap n) (ABool filled) (counted (extend s zeros))).
  assert (read s3 l = Some (ABool src)) as Hread3
    by (apply read_write_other; [by rewrite read_counted|done]).
  assert (read s3 (LHeap n) = Some (ABool filled)) as Hmask3
    by (by apply read_write_same).
  unfold within_result. destruct (String.eqb operation "exwithin").
  - rewrite (bind_fetch_array _ _ _ _ Hread3).
    rewrite (bind_load_bools _ _ _ _ Hmask3).
    rewrite (bind_lift_ok _ _ _ (zip_with (λ b x, b && negb x) filled src))
      by (simpl; by rewrite Hfilled, Nat.eqb_refl).
    rewrite bind_store_at. eexists. split; [reflexivity|].
    apply read_write_same. unfold s3. simpl. rewrite length_insert.
    rewrite length_app. simpl. lia.
  - eexists. split; [reflexivity|exact Hmask3].
Qed.

Lemma existsb_id_false (m : list bool) i : existsb id m = false → m !! i ≠ Some true.
Proof.
  revert i. induction m as [|b m IH]; intros [|i]; simpl; try done.
  - destruct b; [done|]. intros _ [=].
  - destruct b; [done|]. apply IH.
Qed.

(** Clearing the source bits of a mask that holds them all: the cleared mask
    lies inside the mask, and what was removed is the source. *)
Lemma cleared_mask_relation (src filled : list bool) :
  (∀ i, src !! i = Some true → filled !! i = Some true) →
  let cleared := zip_with (λ b x, b && negb x) filled src in
  (∀ i, cleared !! i = Some true → filled !! i = Some true) ∧
  (∀ i, src !! i = Some true ↔ filled !! i = Some true ∧ cleared !! i = Some false).
Proof.
  intros Hself cleared. split.
  - intros i (b & x & Hbx & Hb & Hx)%lookup_zip_with_Some.
    rewrite Hb. f_equal. by destruct b.
  - intros i. split.
    + intros Hi. split; [by apply Hself|].
      apply lookup_zip_with_Some. exists true, true. auto.
    + intros [Hf (b & x & Hbx & Hb & Hx)%lookup_zip_with_Some].
      rewrite Hx. f_equal. rewrite Hf in Hb. injection Hb as <-.
      by destruct x.
Qed.

(** C4. For a cutoff [c >= 0] and a source subtree [S] that evaluates to a
    mask over the atoms of a well-shaped molecule, under the self-inclusive
    contract of the distance primitive on the one call the evaluator makes
    for [S] (the frame's coordinates, the cutoff, the indices of the source
    atoms, the bounding box of their rows and the cleared mask): [within c
    of S] and [exwithin c of S] both evaluate to masks over the atoms, every
    atom of the [exwithin] mask is in the [within] mask, and the atoms that
    are in the [within] mask but not in the [exwithin] mask are exactly the
    atoms selected by [S]. *)
Theorem exwithin_is_within_minus_source re wd m a (c : scalar) (S : node)
    (src : list bool) (rows : list (list float)) :
  evaluate re wd m a S = Ok (Array (ABool src)) →
  length src = numAtoms m →
  (frame m < numFrames m)%nat →
  coords_frame m = Some rows →
  length rows = numAtoms m →
  cutoff_nonneg c = true →
  (∀ mins maxs,
     reduce_rows fmin (select src rows) = Ok mins →
     reduce_rows fmax (select src rows) = Ok maxs →
     self_inclusive wd rows c (where_from id 0%nat src) mins maxs
       (replicate (numAtoms m) false)) →
  ∃ inclusive exclusive,
    evaluate re wd m a (Node "within" [CScalar c; CNode S])
      = Ok (Array (ABool inclusive)) ∧
    evaluate re wd m a (Node "exwithin" [CScalar c; CNode S])
      = Ok (Array (ABool exclusive)) ∧
    length inclusive = numAtoms m ∧
    length exclusive = numAtoms m ∧
    (∀ i, exclusive !! i = Some true → inclusive !! i = Some true) ∧
    (∀ i, src !! i = Some true ↔
          inclusive !! i = Some true ∧ exclusive !! i = Some false).
Proof.
  intros HS Hsrc Hframe Hrows Hlen Hc Hwd.
  apply evaluate_array in HS as (l & s & Hrun & Hread).
  destruct (traverse_ast_frame _ _ _ _ _ _ Hrun) as [Hmol _]. simpl in Hmol.
  destruct (existsb id src) eqn:Hany.
  - (* some atom is selected: the primitive runs *)
    destruct (reduce_rows_ok fmin (select src rows)) as [mins Hmin];
      [apply select_nonempty; [done|lia]|].
    destruct (reduce_rows_ok fmax (select src rows)) as [maxs Hmax];
      [apply select_nonempty; [done|lia]|].
    destruct (Hwd mins maxs Hmin Hmax) as (filled & Hcall & Hfilled & Hself).
    rewrite length_replicate in Hfilled.
    assert (∀ i, src !! i = Some true → filled !! i = Some true) as Hself'.
    { intros i Hi. apply Hself; [by apply source_in_where|].
      apply lookup_lt_Some in Hi. lia. }
    destruct (cleared_mask_relation src filled Hself') as [Hsub Hdiff].
    assert (∀ operation, ∃ final,
              op_within wd operation [VStr operation; VPy c; VArr l] s
                = (Ok (VArr (LHeap (length (heap s)))), final) ∧
              read final (LHeap (length (heap s)))
                = Some (ABool (within_result operation filled src))) as Hop.
    { intros operation.
      apply (op_within_run wd operation c l src s rows mins maxs filled);
        rewrite ?Hmol; try done; lia. }
    destruct (Hop "within") as (f1 & Hrun1 & Hread1).
    destruct (Hop "exwithin") as (f2 & Hrun2 & Hread2).
    exists filled, (zip_with (λ b x, b && negb x) filled src).
    split; [|split; [|split; [|split; [|split]]]]; try done.
    + eapply evaluate_intro; [|exact Hread1].
      by rewrite traverse_ast_lit_node, (bind_ok _ _ _ _ _ Hrun).
    + eapply evaluate_intro; [|exact Hread2].
      by rewrite traverse_ast_lit_node, (bind_ok _ _ _ _ _ Hrun).
    + rewrite length_zip_with. lia.
  - (* no atom is selected: both nodes return the empty mask *)
    exists (replicate (numAtoms m) false), (replicate (numAtoms m) false).
    assert (∀ operation, operation = "within" ∨ operation = "exwithin" →
              evaluate re wd m a (Node operation [CScalar c; CNode S])
              = Ok (Array (ABool (replicate (numAtoms m) false)))) as Hop.
    { intros operation Hop. eapply evaluate_intro.
      - rewrite traverse_ast_lit_node, (bind_ok _ _ _ _ _ Hrun).
        by apply within_empty_source with src.
      - rewrite Hmol. apply read_extend_new. }
    split; [|split; [|split; [|split; [|split]]]]; auto using length_replicate.
    intros i. split.
    + intros Hi. by apply existsb_id_false with (i := i) in Hany.
    + by intros [[[=] _]%lookup_replicate _].
Qed.

(** ** The frame of a whole evaluation *)

(** C8. Evaluating a node, of any kind and from any store, ends (with a
    value or with an exception) in a store whose molecule, with its
    per-atom arrays and coordinates, and whose analysis mapping are the ones
    it started with.  The arrays allocated before the node ran are
    untouched as well: the only writes, those of [within] and [exwithin],
    go to the mask the node allocated. *)
Theorem traverse_ast_only_reads_molecule_and_analysis re wd (n : node) (s : store) :
  let final := (traverse_ast re wd n s).2 in
  mol final = mol s ∧
  analysis final = analysis s ∧
  ∀ i arr, heap s !! i = Some arr → heap final !! i = Some arr.
Proof.
  destruct (keeps_traverse_ast re wd None n s) as (Hm & Ha & Hh).
  split; [done|]. split; [done|]. intros i arr. by apply Hh.
Qed.

(** ** Runs on the small molecule *)

(** The concrete scenarios of the specification. *)
Example noh_on_mol5 :
  evaluate5 (Node "molecule" [CScalar (SStr "noh")])
  = Ok (Array (ABool [true; false; true; false; true])).
Proof. vm_compute. reflexivity. Qed.

Example hydrogen_on_mol5 :
  evaluate5 (Node "molecule" [CScalar (SStr "hydrogen")])
  = Ok (Array (ABool [false; true; false; true; false])).
Proof. vm_compute. reflexivity. Qed.

Example abs_beta_above_one_on_mol5 :
  evaluate5
    (Node "comp"
       [CScalar (SStr ">");
        CNode (Node "func" [CScalar (SStr "abs");
                            CNode (Node "numprop" [CScalar (SStr "beta")])]);
        CScalar (SInt 1)])
  = Ok (Array (ABool [false; false; false; true; true])).
Proof. vm_compute. reflexivity. Qed.

Example index_list_on_mol5 :
  evaluate5 (Node "molprop_int_eq"
               [CScalar (SStr "index"); CList [SInt 1; SInt 2; SInt 3]])
  = Ok (Array (ABool [false; true; true; true; false])).
Proof. vm_compute. reflexivity. Qed.

Example name_wildcard_on_mol5 :
  evaluate5 (Node "molprop_str_eq" [CScalar (SStr "name"); CScalar (SStr "C.*")])
  = Ok (Array (ABool [true; false; true; false; false])).
Proof. vm_compute. reflexivity. Qed.

(** The loop that [fn] keeps for lists with a wildcard member, run on its
    own: one entry per pair of an atom and a member, ten for five atoms. *)
Example wildcard_loop_is_per_pair :
  let s := initial mol5 analysis5 in
  match_pairs re_match_fragment (VArr (LAttr "name")) [SStr "C.*"; SStr "O"] s
  = (Ok (VArr (LHeap 0)),
     extend s (ABool [true; false; false; false; true; false;
                      false; false; false; true])).
Proof. vm_compute. reflexivity. Qed.

(** C1. A list query with a wildcard member is not pattern-matched.  On the
    atom names [CA HA CB N O] and the query [["C.*", "O"]], whatever the
    regular-expression engine, the property-equals node selects only [O],
    the one name equal to a member; the rule of the specification selects
    [CA], [CB] and [O]. *)
Theorem list_query_with_wildcard_is_plain_membership :
  (∀ re wd,
     evaluate re wd mol5 analysis5
       (Node "molprop_str_eq"
          [CScalar (SStr "name"); CList [SStr "C.*"; SStr "O"]])
     = Ok (Array (ABool [false; false; false; false; true]))) ∧
  spec_list_match re_match_fragment ["CA"; "HA"; "CB"; "N"; "O"] ["C.*"; "O"]
  = Ok [true; false; true; false; true].
Proof. split; [intros re wd|]; vm_compute; reflexivity. Qed.

(** C2, refuted as stated: [resid] and [serial] are integer arrays, and the
    [and] node over them returns their bitwise conjunction instead of
    failing. *)
Lemma logop_and_accepts_integer_arrays :
  evaluate5 (Node "numprop" [CScalar (SStr "resid")])
    = Ok (Array (AInt [1; 1; 2; 2; 3])) ∧
  evaluate5 (Node "numprop" [CScalar (SStr "serial")])
    = Ok (Array (AInt [1; 2; 3; 4; 5])) ∧
  evaluate5 (Node "logop"
               [CScalar (SStr "and");
                CNode (Node "numprop" [CScalar (SStr "resid")]);
                CNode (Node "numprop" [CScalar (SStr "serial")])])
    = Ok (Array (AInt [1; 0; 2; 0; 1])).
Proof. split; [|split]; vm_compute; reflexivity. Qed.

Lemma logical_nodes_on_mol5 :
  let s := initial mol5 analysis5 in
  let logop op operands :=
    apply_operation re_match_fragment within_distance_ref "logop"
      (VStr "logop" :: VStr op :: operands) s in
  logop "and" [VArr (LAttr "resid"); VArr (LAttr "serial")]
    = (Ok (VArr (LHeap 0)), extend s (AInt [1; 0; 2; 0; 1])) ∧
  logop "not" [VArr (LAttr "resid")]
    = (Ok (VArr (LHeap 0)), extend s (AInt [-2; -2; -3; -3; -4])) ∧
  logop "and" [VArr (LAnalysis "protein"); VArr (LAttr "beta")]
    = (Raise TypeError, s) ∧
  logop "or" [VArr (LAttr "beta"); VArr (LAnalysis "protein")]
    = (Raise TypeError, s) ∧
  logop "not" [VArr (LAttr "beta")] = (Raise TypeError, s).
Proof.
  pose proof (logical_nodes_leave_typing_to_the_host
                re_match_fragment within_distance_ref (initial mol5 analysis5)
                (LAttr "resid") (LAttr "serial") (LAttr "beta")
                (LAnalysis "protein")
                [1; 1; 2; 2; 3] [1; 2; 3; 4; 5] [0; -1; -1; 2; 2]%float
                (ABool [true; true; true; true; false])
                eq_refl eq_refl eq_refl eq_refl eq_refl
                (ex_intro _ _ eq_refl)) as H.
  cbv zeta in H.
  destruct H as (Hand & _ & Hnot & _ & Hand' & Hor & _ & Hnot').
  intros s logop.
  split; [exact Hand|split; [exact Hnot|split; [exact Hand'|split]]];
    [exact Hor|exact Hnot'].
Defined.

Lemma not_protein_on_mol5 :
  evaluate5 (Node "molecule" [CScalar (SStr "protein")])
    = Ok (Array (ABool [true; true; true; true; false])) ∧
  evaluate5 (Node "logop"
               [CScalar (SStr "not");
                CNode (Node "molecule" [CScalar (SStr "protein")])])
    = Ok (Array (ABool [false; false; false; false; true])).
Proof.
  assert (evaluate5 (Node "molecule" [CScalar (SStr "protein")])
          = Ok (Array (ABool [true; true; true; true; false]))) as H
    by (vm_compute; reflexivity).
  split; [exact H|].
  exact (not_is_complement _ _ _ _ _ _ H).
Defined.

(** The coordinates of the small molecule at its frame. *)
Lemma coords_frame_mol5 :
  coords_frame mol5
  = Some [[0; 0; 0]; [1; 0; 0]; [2; 0; 0]; [3; 0; 0]; [10; 0; 0]]%float.
Proof. reflexivity. Qed.

(** The reference primitive honours the contract on the small molecule, on
    every call with a buffer of five entries. *)
Lemma within_distance_ref_self_inclusive source mins maxs results :
  length results = 5%nat →
  self_inclusive within_distance_ref
    [[0; 0; 0]; [1; 0; 0]; [2; 0; 0]; [3; 0; 0]; [10; 0; 0]]%float
    (SFloat 1.5) source mins maxs results.
Proof.
  intros Hlen.
  eexists. split; [reflexivity|]. split; [apply length_imap|].
  intros i Hi Hlt. rewrite list_lookup_imap.
  destruct (lookup_lt_is_Some_2 results i) as [b ->]; [by rewrite Hlen|].
  simpl. f_equal.
  apply list_elem_of_In in Hi.
  do 5 (destruct i as [|i];
        [simpl; apply existsb_exists; eexists; split; [exact Hi|];
         vm_compute; reflexivity|]).
  simpl in Hlt. lia.
Qed.

Lemma within_and_exwithin_on_mol5 :
  let S := Node "molprop_int_eq" [CScalar (SStr "index"); CScalar (SInt 1)] in
  evaluate5 S = Ok (Array (ABool [false; true; false; false; false])) ∧
  ∃ inclusive exclusive,
    evaluate5 (Node "within" [CScalar (SFloat 1.5); CNode S])
      = Ok (Array (ABool inclusive)) ∧
    evaluate5 (Node "exwithin" [CScalar (SFloat 1.5); CNode S])
      = Ok (Array (ABool exclusive)) ∧
    length inclusive = 5%nat ∧
    length exclusive = 5%nat ∧
    (∀ i, exclusive !! i = Some true → inclusive !! i = Some true) ∧
    (∀ i, [false; true; false; false; false] !! i = Some true ↔
          inclusive !! i = Some true ∧ exclusive !! i = Some false).
Proof.
  intros S.
  assert (evaluate5 S = Ok (Array (ABool [false; true; false; false; false]))) as H
    by (vm_compute; reflexivity).
  split; [exact H|].
  exact (exwithin_is_within_minus_source
           re_match_fragment within_distance_ref mol5 analysis5 (SFloat 1.5) S
           [false; true; false; false; false] _
           H eq_refl (le_n 1) coords_frame_mol5 eq_refl eq_refl
           (λ mins maxs _ _,
              within_distance_ref_self_inclusive [1%nat] mins maxs
                (replicate 5 false) eq_refl)).
Defined.

Lemma within_of_lipid_on_mol5 :
  let S := Node "molecule" [CScalar (SStr "lipid")] in
  let s := initial mol5 analysis5 in
  traverse_ast re_match_fragment within_distance_ref S s
    = (Ok (VArr (LAnalysis "lipids")), s) ∧
  ∃ mask final,
    traverse_ast re_match_fragment within_distance_ref
      (Node "within" [CScalar (SFloat 8.5); CNode S]) s = (Ok (VArr mask), final) ∧
    read final mask = Some (ABool [false; false; false; false; false]) ∧
    wd_calls final = 0%nat ∧
    mask = LHeap 0.
Proof.
  intros S s.
  assert (traverse_ast re_match_fragment within_distance_ref S s
          = (Ok (VArr (LAnalysis "lipids")), s)) as H by reflexivity.
  split; [exact H|].
  exact (empty_source_gives_empty_mask
           re_match_fragment within_distance_ref "within" (SFloat 8.5) S s
           (LAnalysis "lipids") [false; false; false; false; false] s
           (or_introl eq_refl) H eq_refl eq_refl).
Defined.

Lemma sqrt_of_beta_on_mol5 :
  let S := Node "numprop" [CScalar (SStr "beta")] in
  let s := initial mol5 analysis5 in
  has_negative (AFloat [0; -1; -1; 2; 2]%float) = true ∧
  traverse_ast re_match_fragment within_distance_ref
    (Node "func" [CScalar (SStr "sqrt"); CNode S]) s
  = (Raise (RuntimeError (Negative_values_in_sqrt_call (VArr (LAttr "beta")))), s).
Proof.
  intros S s. split; [reflexivity|].
  exact (sqrt_of_negative_raises
           re_match_fragment within_distance_ref S s (LAttr "beta")
           (AFloat [0; -1; -1; 2; 2]%float) s eq_refl eq_refl eq_refl).
Defined.

Lemma same_residue_on_mol5 :
  let S := Node "molprop_int_eq" [CScalar (SStr "index"); CScalar (SInt 2)] in
  let once := Node "sameas" [CScalar (SStr "residue"); CNode S] in
  let twice := Node "sameas" [CScalar (SStr "residue"); CNode once] in
  evaluate5 S = Ok (Array (ABool [false; false; true; false; false])) ∧
  evaluate5 once = Ok (Array (ABool [false; false; true; true; false])) ∧
  evaluate5 twice = evaluate5 once.
Proof.
  intros S once twice.
  assert (evaluate5 S = Ok (Array (ABool [false; false; true; false; false]))) as H
    by (vm_compute; reflexivity).
  split; [exact H|].
  exact (same_residue_idempotent
           re_match_fragment within_distance_ref mol5 analysis5 S
           [false; false; true; false; false] [0; 0; 1; 1; 2]
           H eq_refl eq_refl).
Defined.

Lemma modulo_of_index_on_mol5 :
  let s := initial mol5 analysis5 in
  molpropmap !! "index" = None ∧
  traverse_ast re_match_fragment within_distance_ref
    (Node "molprop_int_modulo"
       [CScalar (SStr "index"); CScalar (SInt 2); CScalar (SInt 0)]) s
  = (Raise (KeyError (VStr "index")), s) ∧
  traverse_ast re_match_fragment within_distance_ref
    (Node "molprop_int_eq" [CScalar (SStr "index"); CScalar (SInt 2)]) s
  = bind arange_numAtoms (λ x, fn re_match_fragment x (VInt 2)) s.
Proof.
  intros s.
  exact (modulo_rejects_index_and_residue
           re_match_fragment within_distance_ref "index"
           (SInt 2) (SInt 0) (SInt 2) s (or_introl eq_refl)).
Defined.

Lemma name_with_brackets_on_mol5 :
  let s := initial mol5 analysis5 in
  str_contains ".*" "C[AB]" = false ∧
  fn re_match_fragment (VArr (LAttr "name")) (VStr "C[AB]") s
  = (Ok (VArr (LHeap 0)), extend s (ABool [false; false; false; false; false])).
Proof.
  intros s. split; [reflexivity|].
  exact (proj2 (single_string_pattern_only_with_wildcard
                  re_match_fragment "C[AB]" s (LAttr "name")
                  ["CA"; "HA"; "CB"; "N"; "O"] eq_refl)).
Defined.

(** * Further properties *)

(** ** The traversal *)

Lemma traverse_ast_resolve re wd operation children s :
  traverse_ast re wd (Node operation children) s =
  bind (resolve re wd children)
       (λ resolved, apply_operation re wd operation (VStr operation :: resolved)) s.
Proof. reflexivity. Qed.

Lemma for_each_app_raise {A B} (f : A → Py B) pre x post s vs s0 e s1 :
  for_each f pre s = (Ok vs, s0) →
  f x s0 = (Raise e, s1) →
  for_each f (pre ++ x :: post) s = (Raise e, s1).
Proof.
  revert s vs. induction pre as [|p pre IH]; intros s vs; simpl.
  - intros [= _ <-] Hx. by rewrite (bind_raise _ _ _ _ _ Hx).
  - unfold bind at 1.
    destruct (f p s) as [[y|e'|] s'] eqn:Ep; try done.
    unfold bind at 1.
    destruct (for_each f pre s') as [[ys|e'|] s''] eqn:Epre; try done.
    intros [= _ <-] Hx.
    unfold bind at 1. rewrite Ep. unfold bind at 1.
    by rewrite (IH _ _ Epre Hx).
Qed.

(** X1. An exception in a child is the exception of the node: when the
    children before a sub-node evaluate and the sub-node raises, the node
    raises the same exception from the same store, whatever its operation
    (known or not) and whatever follows the sub-node. *)
Theorem child_exception_aborts_node re wd operation pre sub post s vs s0 e s1 :
  resolve re wd pre s = (Ok vs, s0) →
  traverse_ast re wd sub s0 = (Raise e, s1) →
  traverse_ast re wd (Node operation (pre ++ CNode sub :: post)) s = (Raise e, s1).
Proof.
  intros Hpre Hsub. rewrite traverse_ast_resolve.
  apply bind_raise. unfold resolve in *.
  by apply for_each_app_raise with vs s0.
Qed.

Lemma apply_operation_unknown re wd operation node s :
  operation ∉ operations →
  apply_operation re wd operation node s
  = (Raise (RuntimeError (Invalid_operation operation)), s).
Proof.
  intros Hnot. unfold apply_operation.
  repeat match goal with
         | |- context [String.eqb operation ?t] =>
             destruct (String.eqb_spec operation t) as [->|_];
             [exfalso; apply Hnot; unfold operations; set_solver|]
         end.
  reflexivity.
Qed.

(** X2. A node whose operation is none of the fourteen known tags still has
    its children evaluated; once they have, it raises the [RuntimeError]
    "Invalid operation", in the store the children left. *)
Theorem unknown_operation_raises_after_children re wd operation children s vs s' :
  operation ∉ operations →
  resolve re wd children s = (Ok vs, s') →
  traverse_ast re wd (Node operation children) s
  = (Raise (RuntimeError (Invalid_operation operation)), s').
Proof.
  intros Hnot Hres.
  rewrite traverse_ast_resolve, (bind_ok _ _ _ _ _ Hres).
  by apply apply_operation_unknown.
Qed.

(** X3. Parentheses are transparent: a [grouped] node gives exactly what
    its sub-node gives, the same value (the same array, not a copy) or the
    same exception, in the same store. *)
Theorem grouped_is_its_child re wd (S : node) s :
  traverse_ast re wd (Node "grouped" [CNode S]) s = traverse_ast re wd S s.
Proof.
  rewrite traverse_ast_resolve. unfold resolve. simpl. unfold bind.
  by destruct (traverse_ast re wd S s) as [[v|e|] s'].
Qed.

(** X4. A node of a known operation without any operand raises
    [IndexError]: every block starts by reading [node[1]]. *)
Theorem node_without_operands_raises_IndexError re wd operation s :
  operation ∈ operations →
  (traverse_ast re wd (Node operation []) s).1 = Raise IndexError.
Proof.
  unfold operations. rewrite !elem_of_cons, elem_of_nil.
  intros H. repeat destruct H as [->|H]; try reflexivity. done.
Qed.

(** ** The molecule keywords *)

Lemma traverse_ast_literals1 re wd operation x s :
  traverse_ast re wd (Node operation [CScalar x]) s
  = apply_operation re wd operation [VStr operation; VPy x] s.
Proof. reflexivity. Qed.

(** X5. A keyword that is not one of the twelve of the [molecule] block
    raises the [RuntimeError] "Invalid molecule selection"; nothing is read
    or allocated. *)
Theorem unknown_molecule_keyword_raises re wd (molec : string) s :
  molec ∉ molecule_keywords →
  traverse_ast re wd (Node "molecule" [CScalar (SStr molec)]) s
  = (Raise (RuntimeError (Invalid_molecule_selection (VStr molec))), s).
Proof.
  intros Hnot. rewrite traverse_ast_literals1.
  change (apply_operation re wd "molecule" [VStr "molecule"; VStr molec] s)
    with (op_molecule [VStr "molecule"; VStr molec] s).
  unfold op_molecule. rewrite (bind_item _ 1 (VStr molec)) by done.
  unfold tag_in, tag_is, obind, lift, bind.
  repeat match goal with
         | |- context [String.eqb molec ?t] =>
             destruct (String.eqb_spec molec t) as [->|_];
             [exfalso; apply Hnot; unfold molecule_keywords; set_solver|]
         end.
  reflexivity.
Qed.

(** X6. The keywords answered by the analysis return the array stored in
    the mapping itself: the value is the location of [analysis[key]], no
    array is allocated and the store is the one the node started in.  When
    the mapping lacks the key the node raises [KeyError]. *)
Theorem analysis_keyword_returns_stored_array re wd (keyword key : string) s :
  (keyword, key) ∈ analysis_keywords →
  traverse_ast re wd (Node "molecule" [CScalar (SStr keyword)]) s
  = match analysis s !! key with
    | Some _ => (Ok (VArr (LAnalysis key)), s)
    | None => (Raise (KeyError (VStr key)), s)
    end.
Proof.
  unfold analysis_keywords. rewrite !elem_of_cons, elem_of_nil.
  intros H. repeat destruct H as [[= -> ->]|H]; try reflexivity. done.
Qed.

Lemma binary_strings op (f : string → string → bool) s l xs (y : string) :
  (op = Eq ∧ f = String.eqb) ∨ (op = Ne ∧ f = λ p q, negb (String.eqb p q)) →
  read s l = Some (AStr xs) →
  binary op (VArr l) (VStr y) s =
  (Ok (VArr (LHeap (length (heap s)))), extend s (ABool ((λ xx, f xx y) <$> xs))).
Proof.
  intros Hop H. unfold binary.
  rewrite (bind_fetch_array _ _ _ _ H). cbn [fetch]. rewrite bind_ret.
  rewrite (bind_lift_ok _ _ _ (RArr (ABool ((λ xx, f xx y) <$> xs)))).
  - reflexivity.
  - destruct Hop as [[-> ->] | [-> ->]];
      unfold host_binop, np_binop; simpl; by rewrite bzip_scalar_r.
Qed.

(** X7. [hydrogen] selects the atoms whose element is exactly ["H"] and
    [noh] the others: on every molecule whose elements are strings the two
    masks are fresh arrays, one entry per element, and each is the
    elementwise complement of the other. *)
Theorem hydrogen_and_noh_are_complements re wd m a (elements : list string) :
  element m = AStr elements →
  let is_H := λ e, String.eqb e "H" in
  evaluate re wd m a (Node "molecule" [CScalar (SStr "hydrogen")])
    = Ok (Array (ABool (is_H <$> elements))) ∧
  evaluate re wd m a (Node "molecule" [CScalar (SStr "noh")])
    = Ok (Array (ABool (negb <$> (is_H <$> elements)))).
Proof.
  intros Hel is_H.
  assert (read (initial m a) (LAttr "element") = Some (AStr elements)) as Hread
    by (simpl; by rewrite <- Hel).
  split.
  - eapply evaluate_intro; [|apply read_extend_new].
    rewrite traverse_ast_literals1.
    change (apply_operation re wd "molecule" [VStr "molecule"; VStr "hydrogen"]
              (initial m a))
      with (binary Eq (VArr (LAttr "element")) (VStr "H") (initial m a)).
    by apply (binary_strings Eq String.eqb); [left|].
  - eapply evaluate_intro; [|apply read_extend_new].
    rewrite traverse_ast_literals1.
    change (apply_operation re wd "molecule" [VStr "molecule"; VStr "noh"]
              (initial m a))
      with (binary Ne (VArr (LAttr "element")) (VStr "H") (initial m a)).
    rewrite (binary_strings Ne (λ p q, negb (String.eqb p q)) _ _ elements)
      by (auto; by right).
    by rewrite <- list_fmap_compose.
Qed.

(** X8. [backbone] is the union of the protein and the nucleic backbone:
    the elementwise [or] of the two masks of the analysis, in a fresh
    array. *)
Theorem backbone_is_union_of_backbones re wd m a (protein nucleic : list bool) :
  a !! "protein_bb" = Some (ABool protein) →
  a !! "nucleic_bb" = Some (ABool nucleic) →
  length protein = length nucleic →
  evaluate re wd m a (Node "molecule" [CScalar (SStr "backbone")])
  = Ok (Array (ABool (zip_with orb protein nucleic))).
Proof.
  intros Hp Hn Hlen.
  eapply evaluate_intro; [|apply (read_extend_new (initial m a))].
  rewrite traverse_ast_literals1.
  change (apply_operation re wd "molecule" [VStr "molecule"; VStr "backbone"]
            (initial m a))
    with (bind (analysis_get "protein_bb")
            (λ p, let* n := analysis_get "nucleic_bb" in binary Or p n)
            (initial m a)).
  rewrite (bind_ok _ _ _ (VArr (LAnalysis "protein_bb")) (initial m a))
    by (unfold analysis_get; simpl; by rewrite Hp).
  rewrite (bind_ok _ _ _ (VArr (LAnalysis "nucleic_bb")) (initial m a))
    by (unfold analysis_get; simpl; by rewrite Hn).
  rewrite (binary_arrays Or _ _ _ (ABool protein) (ABool nucleic)) by done.
  unfold np_binop. simpl. rewrite bzip_same_length by done. reflexivity.
Qed.

(** ** Property tests *)

Lemma fn_scalar re x (y : scalar) :
  match y with SStr _ => False | _ => True end →
  fn re x (VPy y) = binary Eq x (VPy y).
Proof. by destruct y. Qed.

Lemma binary_eq_int s l xs (k : Z) :
  read s l = Some (AInt xs) → in_int64 k = true →
  binary Eq (VArr l) (VInt k) s =
  (Ok (VArr (LHeap (length (heap s)))), extend s (ABool ((λ x, x =? k) <$> xs))).
Proof.
  intros H Hk. unfold binary.
  rewrite (bind_fetch_array _ _ _ _ H). cbn [fetch]. rewrite bind_ret.
  rewrite (bind_lift_ok _ _ _ (RArr (ABool ((λ x, x =? k) <$> xs)))).
  - reflexivity.
  - unfold host_binop. simpl. rewrite Hk. simpl.
    unfold np_binop. simpl. by rewrite bzip_scalar_r.
Qed.

Lemma bind_arange {B} (k : pyval → Py B) s :
  bind arange_numAtoms k s
  = k (VArr (LHeap (length (heap s))))
      (extend s (AInt (Z.of_nat <$> seq 0 (numAtoms (mol s))))).
Proof. reflexivity. Qed.

(** X9. [index k] selects the atom at position [k], counted from zero, and
    nothing else: the mask has one entry per atom ([numAtoms]) whatever the
    arrays of the molecule hold, and a [k] that is negative or not below
    [numAtoms] selects no atom and raises nothing. *)
Theorem index_selects_one_position re wd m a (k : Z) :
  in_int64 k = true →
  ∃ mask,
    evaluate re wd m a
      (Node "molprop_int_eq" [CScalar (SStr "index"); CScalar (SInt k)])
      = Ok (Array (ABool mask)) ∧
    length mask = numAtoms m ∧
    ∀ i, mask !! i = Some true ↔ (i < numAtoms m)%nat ∧ Z.of_nat i = k.
Proof.
  intros Hk.
  exists ((λ x, x =? k) <$> (Z.of_nat <$> seq 0 (numAtoms m))).
  split; [|split].
  - eapply evaluate_intro;
      [|apply (read_extend_new
                 (extend (initial m a) (AInt (Z.of_nat <$> seq 0 (numAtoms m)))))].
    rewrite traverse_ast_literals2, molprop_eq_index by (by left).
    rewrite bind_arange, fn_scalar by done.
    apply binary_eq_int; [apply (read_extend_new (initial m a))|done].
  - by rewrite !length_fmap, length_seq.
  - intros i. rewrite !list_lookup_fmap. split.
    + destruct (seq 0 (numAtoms m) !! i) as [j|] eqn:E; simpl; [|done].
      apply lookup_seq in E as [-> Hi]. intros [= ->%Z.eqb_eq]. done.
    + intros [Hi <-]. rewrite (lookup_seq_lt _ _ _ Hi). simpl.
      by rewrite Z.eqb_refl.
Qed.

(** X10. A property test on a name that is neither a key of [molpropmap] nor
    [index] nor [residue] raises the [RuntimeError] "Invalid molprop". *)
Theorem unknown_property_raises re wd (op prop : string) (value : scalar) s :
  op = "molprop_int_eq" ∨ op = "molprop_str_eq" →
  molpropmap !! prop = None →
  prop ≠ "index" →
  prop ≠ "residue" →
  traverse_ast re wd (Node op [CScalar (SStr prop); CScalar value]) s
  = (Raise (RuntimeError (Invalid_molprop (VStr prop))), s).
Proof.
  intros Hop Hnone Hindex Hresidue. rewrite traverse_ast_literals2.
  assert (apply_operation re wd op [VStr op; VStr prop; VPy value] s
          = op_molprop_eq re [VStr op; VStr prop; VPy value] s) as ->
    by (by destruct Hop as [-> | ->]).
  unfold op_molprop_eq.
  rewrite (bind_item _ 1 (VStr prop)), (bind_item _ 2 (VPy value)) by done.
  rewrite (bind_lift_ok _ _ _ None) by (simpl; by rewrite Hnone).
  rewrite (bind_lift_ok _ _ _ false)
    by (simpl; by destruct (String.eqb_spec prop "index")).
  rewrite (bind_lift_ok _ _ _ false)
    by (simpl; by destruct (String.eqb_spec prop "residue")).
  reflexivity.
Qed.

Lemma all_strs_strings (ys : list string) : all_strs (SStr <$> ys) = Some ys.
Proof. unfold all_strs. by apply mapM_fmap_Some. Qed.

Lemma np_asarray_strings (y : string) (ys : list string) :
  np_asarray (SStr <$> (y :: ys)) = Ok (AStr (y :: ys)).
Proof.
  pose proof (all_strs_strings (y :: ys)) as H.
  unfold np_asarray. by rewrite H.
Qed.

Lemma existsb_eqb_string (x : string) ys :
  existsb (String.eqb x) ys = bool_decide (x ∈ ys).
Proof.
  apply Bool.eq_iff_eq_true.
  rewrite bool_decide_eq_true, existsb_exists, list_elem_of_In. split.
  - by intros (z & Hin & ->%String.eqb_eq).
  - intros Hin. exists x. by rewrite String.eqb_refl.
Qed.

(** X11. A property test against a list of strings is exact set
    membership: on a string property the mask has one entry per atom, true
    exactly for the atoms whose value equals a member of the list
    ([resname ACE NME] selects the atoms named [ACE] or [NME], no others). *)
Theorem string_list_query_is_membership re wd m a (prop attr : string)
    (values : list string) (y : string) (ys : list string) :
  molpropmap !! prop = Some attr →
  getattr m attr = Some (AStr values) →
  evaluate re wd m a
    (Node "molprop_str_eq" [CScalar (SStr prop); CList (SStr <$> (y :: ys))])
  = Ok (Array (ABool ((λ v, bool_decide (v ∈ y :: ys)) <$> values))).
Proof.
  intros Hprop Hattr.
  eapply evaluate_intro; [|apply read_extend_new].
  change (traverse_ast re wd
            (Node "molprop_str_eq" [CScalar (SStr prop); CList (SStr <$> (y :: ys))])
            (initial m a))
    with (op_molprop_eq re
            [VStr "molprop_str_eq"; VStr prop; VList (SStr <$> (y :: ys))]
            (initial m a)).
  unfold op_molprop_eq.
  rewrite (bind_item _ 1 (VStr prop)) by done.
  rewrite (bind_item _ 2 (VList (SStr <$> (y :: ys)))) by done.
  rewrite (bind_lift_ok _ _ _ (Some attr)) by (simpl; by rewrite Hprop).
  rewrite (bind_ok _ _ _ (VArr (LAttr attr)) (initial m a))
    by (unfold mol_getattr; simpl; by rewrite Hattr).
  rewrite fn_list_is_membership. unfold isin_list.
  rewrite (bind_fetch_array _ _ (AStr values)) by done.
  rewrite (bind_lift_ok _ _ _ (AStr values)) by done.
  rewrite (bind_lift_ok _ _ _ (AStr (y :: ys))) by apply np_asarray_strings.
  rewrite (bind_lift_ok _ _ _
             (ABool ((λ v, bool_decide (v ∈ y :: ys)) <$> values))).
  - reflexivity.
  - unfold np_isin. simpl. do 2 f_equal.
    apply Forall_fmap_ext_1, Forall_forall. intros v _.
    apply (existsb_eqb_string v (y :: ys)).
Qed.

Lemma wrap64_in_range z : - 2 ^ 63 ≤ z < 2 ^ 63 → wrap64 z = z.
Proof. intros H. unfold wrap64. rewrite Z.mod_small; lia. Qed.

Lemma in_int64_bounds z : in_int64 z = true → - 2 ^ 63 ≤ z < 2 ^ 63.
Proof. unfold in_int64. intros [H1 H2]%andb_true_iff. lia. Qed.

Lemma remainder_in_range x d :
  in_int64 d = true → d ≠ 0 → wrap64 (x mod d) = x mod d.
Proof.
  intros Hd%in_int64_bounds Hne. apply wrap64_in_range.
  destruct (Z.lt_total d 0) as [Hneg|[->|Hpos]]; [|done|].
  - pose proof (Z.mod_neg_bound x d Hneg). lia.
  - pose proof (Z.mod_pos_bound x d Hpos). lia.
Qed.

(** X12. The modulo test on an integer property compares, atom by atom,
    the floored remainder [value % divisor] with the given remainder and
    returns the mask in a fresh array.  There is no guard on the divisor: a
    zero divisor raises nothing, every remainder then counts as [0]. *)
Theorem modulo_node_compares_remainders re wd m a (prop attr : string)
    (values : list Z) (divisor remainder : Z) :
  molpropmap !! prop = Some attr →
  getattr m attr = Some (AInt values) →
  in_int64 divisor = true →
  in_int64 remainder = true →
  evaluate re wd m a
    (Node "molprop_int_modulo"
       [CScalar (SStr prop); CScalar (SInt divisor); CScalar (SInt remainder)])
  = Ok (Array (ABool ((λ x, (if divisor =? 0 then 0 else x mod divisor)
                            =? remainder) <$> values))).
Proof.
  intros Hprop Hattr Hd Hr.
  eapply evaluate_intro; [|apply (read_extend_new (initial m a))].
  rewrite traverse_ast_literals3.
  change (apply_operation re wd "molprop_int_modulo"
            [VStr "molprop_int_modulo"; VStr prop; VInt divisor; VInt remainder]
            (initial m a))
    with (op_molprop_int_modulo
            [VStr "molprop_int_modulo"; VStr prop; VInt divisor; VInt remainder]
            (initial m a)).
  unfold op_molprop_int_modulo.
  rewrite (bind_item _ 1 (VStr prop)), (bind_item _ 2 (VInt divisor)),
    (bind_item _ 3 (VInt remainder)) by done.
  rewrite (bind_ok _ _ _ attr (initial m a))
    by (unfold molpropmap_item, bind, lift; simpl; by rewrite Hprop).
  rewrite (bind_ok _ _ _ (VArr (LAttr attr)) (initial m a))
    by (unfold mol_getattr; simpl; by rewrite Hattr).
  rewrite (bind_fetch_array _ _ (AInt values)) by done.
  cbn [fetch]. rewrite bind_ret.
  rewrite (bind_lift_ok _ _ _
             (RArr (AInt ((λ x, if divisor =? 0 then 0 else x mod divisor)
                          <$> values)))).
  - rewrite bind_ret.
    rewrite (bind_lift_ok _ _ _
               (RArr (ABool ((λ x, (if divisor =? 0 then 0 else x mod divisor)
                                   =? remainder) <$> values)))); [done|].
    unfold host_binop. simpl. rewrite Hr. simpl. unfold np_binop. simpl.
    rewrite bzip_scalar_r. simpl. by rewrite <- list_fmap_compose.
  - unfold host_binop. simpl. rewrite Hd. simpl. unfold np_binop. simpl.
    rewrite bzip_scalar_r. unfold np_result. simpl. do 3 f_equal.
    apply Forall_fmap_ext_1, Forall_forall. intros x _.
    destruct (Z.eqb_spec divisor 0); [done|]. by apply remainder_in_range.
Qed.

(** ** Arithmetic and functions *)

(** X13. An arithmetic node whose operator is none of [+ - * /] does not
    raise the [RuntimeError] of the other blocks: no branch binds the local
    [fn], and calling it raises [UnboundLocalError]. *)
Theorem unknown_arithmetic_operator_is_unbound re wd (op : string) (x y : scalar) s :
  op ∉ ["+"; "-"; "*"; "/"] →
  traverse_ast re wd (Node "mathop" [CScalar (SStr op); CScalar x; CScalar y]) s
  = (Raise (UnboundLocalError "fn"), s).
Proof.
  intros Hnot. rewrite traverse_ast_literals3.
  change (apply_operation re wd "mathop" [VStr "mathop"; VStr op; VPy x; VPy y] s)
    with (op_mathop [VStr "mathop"; VStr op; VPy x; VPy y] s).
  unfold op_mathop. rewrite (bind_item _ 1 (VStr op)) by done.
  unfold tag_is, lift, bind.
  repeat match goal with
         | |- context [String.eqb op ?t] =>
             destruct (String.eqb_spec op t) as [->|_];
             [exfalso; apply Hnot; set_solver|]
         end.
  reflexivity.
Qed.

Lemma no_negative_check zs :
  has_negative (AInt zs) = false →
  obind (host_binop Lt (OArr (AInt zs)) (OPy (SInt 0)))
        (λ r, np_any (nresult_operand r))
  = Ok false.
Proof.
  simpl. intros H. unfold host_binop, np_binop. simpl.
  rewrite bzip_scalar_r. simpl.
  rewrite existsb_fmap. unfold id. by rewrite H.
Qed.

(** X14. When no element of an [int64] operand is negative, the [sqrt]
    node returns the square roots, computed in [float64] from the converted
    integers, in a fresh array, and leaves the operand as it is. *)
Theorem sqrt_without_negative_returns_roots re wd (S : node) s l
    (zs : list Z) s' :
  traverse_ast re wd S s = (Ok (VArr l), s') →
  read s' l = Some (AInt zs) →
  Forall (λ z, in_int64 z = true) zs →
  has_negative (AInt zs) = false →
  traverse_ast re wd (Node "func" [CScalar (SStr "sqrt"); CNode S]) s
  = (Ok (VArr (LHeap (length (heap s')))),
     extend s' (AFloat ((λ z, PrimFloat.sqrt (float_of_Z z)) <$> zs))).
Proof.
  intros Hrun Hread _ Hneg. apply no_negative_check in Hneg.
  rewrite traverse_ast_lit_node, (bind_ok _ _ _ _ _ Hrun).
  change (apply_operation re wd "func" [VStr "func"; VStr "sqrt"; VArr l] s')
    with (bind (fetch (VArr l))
            (λ a, let* neg := lift (host_binop Lt a (OPy (SInt 0))) in
                  let* any := lift (np_any (nresult_operand neg)) in
                  if any
                  then raise (RuntimeError (Negative_values_in_sqrt_call (VArr l)))
                  else let* v' := item [VStr "func"; VStr "sqrt"; VArr l] 2 in
                       unary Sqrt v') s').
  rewrite (bind_fetch_array _ _ _ _ Hread).
  unfold bind at 1. unfold lift at 1.
  destruct (host_binop Lt (OArr (AInt zs)) (OPy (SInt 0))) as [r| |];
    simpl in Hneg; try done.
  rewrite (bind_lift_ok _ _ _ false) by done.
  rewrite (bind_item _ 2 (VArr l)) by done.
  unfold unary. by rewrite (bind_fetch_array _ _ _ _ Hread).
Qed.

(** ** Group expansion, in full *)

Lemma elem_of_select {A} (m : list bool) (l : list A) x :
  x ∈ select m l ↔ ∃ j, m !! j = Some true ∧ l !! j = Some x.
Proof.
  revert l. induction m as [|b m IH]; intros [|y l]; simpl.
  - rewrite elem_of_nil. split; [done|]. by intros (j & H & _).
  - rewrite elem_of_nil. split; [done|]. by intros (j & H & _).
  - rewrite elem_of_nil. split; [done|]. intros ([|j] & _ & H); done.
  - destruct b.
    + rewrite elem_of_cons, IH. split.
      * intros [->|(j & Hm & Hl)]; [by exists 0%nat|by exists (S j)].
      * intros ([|j] & Hm & Hl); simpl in *; [left; congruence|right; eauto].
    + rewrite IH. split.
      * intros (j & Hm & Hl). by exists (S j).
      * intros ([|j] & Hm & Hl); simpl in *; [done|eauto].
Qed.

(** An atom is in the expanded mask when its group value is the group value
    of a selected atom. *)
Lemma group_mask_lookup groups sel i :
  group_mask groups sel !! i = Some true ↔
  ∃ g j, groups !! i = Some g ∧ groups !! j = Some g ∧ sel !! j = Some true.
Proof.
  unfold group_mask. rewrite list_lookup_fmap. split.
  - destruct (groups !! i) as [g|]; simpl; [|done].
    intros [= (j & Hs & Hg)%existsb_eqb_elem_of%elem_of_sort_unique%elem_of_select].
    eauto.
  - intros (g & j & -> & Hj & Hs). simpl. f_equal.
    apply existsb_eqb_elem_of, elem_of_sort_unique, elem_of_select. eauto.
Qed.

Lemma sameas_fragment re wd sel s res :
  analysis s !! "fragments" = Some res →
  apply_operation re wd "sameas" [VStr "sameas"; VStr "fragment"; sel] s
  = same_values (VArr (LAnalysis "fragments")) sel s.
Proof.
  intros H.
  change (apply_operation re wd "sameas" [VStr "sameas"; VStr "fragment"; sel] s)
    with (bind (analysis_get "fragments") (λ values, same_values values sel) s).
  rewrite (bind_ok _ _ _ (VArr (LAnalysis "fragments")) s); [done|].
  unfold analysis_get. by rewrite H.
Qed.

Lemma sameas_molprop re wd (prop attr : string) sel s arr :
  molpropmap !! prop = Some attr →
  getattr (mol s) attr = Some arr →
  apply_operation re wd "sameas" [VStr "sameas"; VStr prop; sel] s
  = same_values (VArr (LAttr attr)) sel s.
Proof.
  intros Hprop Hattr.
  assert (prop ≠ "fragment") as Hne by (by intros ->).
  change (apply_operation re wd "sameas" [VStr "sameas"; VStr prop; sel] s)
    with (op_sameas [VStr "sameas"; VStr prop; sel] s).
  unfold op_sameas.
  rewrite (bind_item _ 1 (VStr prop)), (bind_item _ 2 sel) by done.
  rewrite (bind_lift_ok _ _ _ false)
    by (simpl; by destruct (String.eqb_spec prop "fragment")).
  rewrite (bind_lift_ok _ _ _ (Some attr)) by (simpl; by rewrite Hprop).
  rewrite (bind_ok _ _ _ (VArr (LAttr attr)) s); [done|].
  unfold mol_getattr. by rewrite Hattr.
Qed.

Lemma sameas_group_values re wd prop sel s arr :
  group_values (mol s) (analysis s) prop = Some arr →
  ∃ l, read s l = Some arr ∧
       apply_operation re wd "sameas" [VStr "sameas"; VStr prop; sel] s
       = same_values (VArr l) sel s.
Proof.
  unfold group_values. intros H.
  destruct (String.eqb_spec prop "fragment") as [->|Hf].
  - exists (LAnalysis "fragments"). split; [done|]. by apply sameas_fragment with arr.
  - destruct (molpropmap !! prop) as [attr|] eqn:Hprop.
    + exists (LAttr attr). split; [done|]. by apply sameas_molprop with arr.
    + destruct (String.eqb_spec prop "residue") as [->|Hr]; [|done].
      exists (LAnalysis "residues"). split; [done|]. by apply sameas_residue with arr.
Qed.

(** X15. "same <prop> as S" over integer group values (fragments, residues,
    or an integer attribute such as [resid]) selects exactly the atoms whose
    group value is the group value of some atom selected by [S].  The mask
    is a fresh array with one entry per atom. *)
Theorem sameas_selects_atoms_sharing_a_group re wd m a (prop : string) (S : node)
    (sel : list bool) (groups : list Z) :
  evaluate re wd m a S = Ok (Array (ABool sel)) →
  group_values m a prop = Some (AInt groups) →
  length sel = length groups →
  ∃ mask,
    evaluate re wd m a (Node "sameas" [CScalar (SStr prop); CNode S])
      = Ok (Array (ABool mask)) ∧
    length mask = length groups ∧
    ∀ i, mask !! i = Some true ↔
         ∃ g j, groups !! i = Some g ∧ groups !! j = Some g ∧ sel !! j = Some true.
Proof.
  intros HS Hgroups Hlen.
  apply evaluate_array in HS as (l & s & Hrun & Hread).
  destruct (traverse_ast_frame _ _ _ _ _ _ Hrun) as [Hm Ha]. simpl in Hm, Ha.
  destruct (sameas_group_values re wd prop (VArr l) s (AInt groups))
    as (lv & Hlv & Hop); [by rewrite Hm, Ha|].
  exists (group_mask groups sel). split; [|split].
  - eapply evaluate_intro; [|apply (read_extend_new s)].
    rewrite traverse_ast_lit_node, (bind_ok _ _ _ _ _ Hrun), Hop.
    by apply same_values_mask.
  - apply length_group_mask.
  - apply group_mask_lookup.
Qed.

Lemma elem_of_insert_unique_eq {A} (ltb eqb : A → A → bool) (x y : A) l :
  (∀ p q, eqb p q = true ↔ p = q) →
  y ∈ insert_unique ltb eqb x l ↔ y = x ∨ y ∈ l.
Proof.
  intros Heq. induction l as [|z l IH]; simpl.
  - rewrite list_elem_of_singleton, elem_of_nil. tauto.
  - destruct (eqb x z) eqn:E.
    + apply Heq in E as ->. rewrite elem_of_cons. tauto.
    + destruct (ltb x z); rewrite !elem_of_cons, ?IH; tauto.
Qed.

Lemma elem_of_sort_unique_eq {A} (ltb eqb : A → A → bool) (y : A) l :
  (∀ p q, eqb p q = true ↔ p = q) →
  y ∈ sort_unique ltb eqb l ↔ y ∈ l.
Proof.
  intros Heq. induction l as [|x l IH]; simpl; [done|].
  by rewrite elem_of_insert_unique_eq, IH, elem_of_cons.
Qed.

(** The mask of [np.isin(values, np.unique(values[sel]))] over values whose
    equality test is exact: an atom is in it when its value is the value of
    a selected atom. *)
Lemma expanded_mask_lookup {A} (ltb eqb : A → A → bool) (groups : list A) sel i :
  (∀ p q, eqb p q = true ↔ p = q) →
  ((λ g, existsb (eqb g) (sort_unique ltb eqb (select sel groups))) <$> groups)
    !! i = Some true ↔
  ∃ g j, groups !! i = Some g ∧ groups !! j = Some g ∧ sel !! j = Some true.
Proof.
  intros Heq.
  assert (∀ g l, existsb (eqb g) l = true ↔ g ∈ l) as Hex.
  { intros g l. rewrite existsb_exists, list_elem_of_In. split.
    - by intros (x & Hin & ->%Heq).
    - intros Hin. exists g. split; [done|]. by apply Heq. }
  rewrite list_lookup_fmap. split.
  - destruct (groups !! i) as [g|]; simpl; [|done].
    intros [= Hg]. apply Hex, elem_of_sort_unique_eq, elem_of_select in Hg;
      [|done]. destruct Hg as (j & Hs & Hg). eauto.
  - intros (g & j & -> & Hj & Hs). simpl. f_equal.
    apply Hex, elem_of_sort_unique_eq, elem_of_select; eauto.
Qed.

Lemma same_values_strings s lv ls (groups : list string) sel :
  read s lv = Some (AStr groups) →
  read s ls = Some (ABool sel) →
  length sel = length groups →
  same_values (VArr lv) (VArr ls) s =
  (Ok (VArr (LHeap (length (heap s)))),
   extend s (ABool ((λ g, existsb (String.eqb g)
                            (sort_unique String.ltb String.eqb (select sel groups)))
                    <$> groups))).
Proof.
  intros Hv Hs Hlen. unfold same_values.
  rewrite (bind_fetch_array _ _ _ _ Hv).
  rewrite (bind_lift_ok _ _ _ (AStr groups)) by done.
  rewrite (bind_fetch_array _ _ _ _ Hs).
  rewrite (bind_lift_ok _ _ _ (RArr (AStr (select sel groups))))
    by (simpl; by rewrite Hlen, Nat.eqb_refl).
  rewrite (bind_lift_ok _ _ _
             (AStr (sort_unique String.ltb String.eqb (select sel groups))))
    by done.
  by rewrite (bind_lift_ok _ _ _
                (ABool ((λ g, existsb (String.eqb g)
                                 (sort_unique String.ltb String.eqb
                                    (select sel groups))) <$> groups))).
Qed.

(** X16. Two consequences for a caller, for every property whose group
    values are integers or strings (fragments and residues, [resid],
    [serial], [chain], [segid], [resname], [name], ...): the result of
    "same <prop> as S" contains every atom that [S] selects, and it selects
    nothing when [S] selects nothing (no error is raised for an empty
    selection). *)
Theorem sameas_contains_its_selection re wd m a (prop : string) (S : node)
    (sel : list bool) (groups : ndarray) :
  evaluate re wd m a S = Ok (Array (ABool sel)) →
  group_values m a prop = Some groups →
  match groups with AInt _ | AStr _ => True | ABool _ | AFloat _ => False end →
  length sel = alen groups →
  ∃ mask,
    evaluate re wd m a (Node "sameas" [CScalar (SStr prop); CNode S])
      = Ok (Array (ABool mask)) ∧
    (∀ i, sel !! i = Some true → mask !! i = Some true) ∧
    (existsb id sel = false → ∀ i, mask !! i ≠ Some true).
Proof.
  intros HS Hgroups Hkind Hlen.
  apply evaluate_array in HS as (l & s & Hrun & Hread).
  destruct (traverse_ast_frame _ _ _ _ _ _ Hrun) as [Hm Ha]. simpl in Hm, Ha.
  destruct (sameas_group_values re wd prop (VArr l) s groups)
    as (lv & Hlv & Hop); [by rewrite Hm, Ha|].
  assert (∀ (A : Type) (values : list A) (mask : list bool),
            length sel = length values →
            (∀ i, mask !! i = Some true ↔
                  ∃ g j, values !! i = Some g ∧ values !! j = Some g ∧
                         sel !! j = Some true) →
            (∀ i, sel !! i = Some true → mask !! i = Some true) ∧
            (existsb id sel = false → ∀ i, mask !! i ≠ Some true)) as Hboth.
  { intros A values mask Hlen' Hlookup. split.
    - intros i Hi. apply Hlookup.
      destruct (lookup_lt_is_Some_2 values i) as [g Hg].
      { rewrite <- Hlen'. by apply lookup_lt_Some in Hi. }
      eauto.
    - intros Hnone i (g & j & _ & _ & Hj)%Hlookup.
      by apply existsb_id_false with (i := j) in Hnone. }
  destruct groups as [bs|zs|fs|ss]; [done| |done|]; simpl in Hlen.
  - exists (group_mask zs sel). split.
    + eapply evaluate_intro; [|apply (read_extend_new s)].
      rewrite traverse_ast_lit_node, (bind_ok _ _ _ _ _ Hrun), Hop.
      by apply same_values_mask.
    + apply (Hboth Z zs); [done|]. intros i. apply group_mask_lookup.
  - eexists. split.
    + eapply evaluate_intro; [|apply (read_extend_new s)].
      rewrite traverse_ast_lit_node, (bind_ok _ _ _ _ _ Hrun), Hop.
      by apply same_values_strings.
    + apply (Hboth string ss); [done|]. intros i.
      apply expanded_mask_lookup. intros p q. apply String.eqb_eq.
Qed.

(** X17. A property that is neither [fragment], nor a key of [molpropmap],
    nor [residue] has no groups: once the selection has been evaluated the
    node raises the [RuntimeError] "Invalid property". *)
Theorem sameas_unknown_property_raises re wd (prop : string) (S : node) s v s' :
  prop ≠ "fragment" →
  molpropmap !! prop = None →
  prop ≠ "residue" →
  traverse_ast re wd S s = (Ok v, s') →
  traverse_ast re wd (Node "sameas" [CScalar (SStr prop); CNode S]) s
  = (Raise (RuntimeError (Invalid_property (VStr prop))), s').
Proof.
  intros Hf Hnone Hr Hrun.
  rewrite traverse_ast_lit_node, (bind_ok _ _ _ _ _ Hrun).
  change (apply_operation re wd "sameas" [VStr "sameas"; VStr prop; v] s')
    with (op_sameas [VStr "sameas"; VStr prop; v] s').
  unfold op_sameas.
  rewrite (bind_item _ 1 (VStr prop)), (bind_item _ 2 v) by done.
  rewrite (bind_lift_ok _ _ _ false)
    by (simpl; by destruct (String.eqb_spec prop "fragment")).
  rewrite (bind_lift_ok _ _ _ None) by (simpl; by rewrite Hnone).
  rewrite (bind_lift_ok _ _ _ false)
    by (simpl; by destruct (String.eqb_spec prop "residue")).
  reflexivity.
Qed.

(** X18. A selection mask whose length is not the number of group values
    cannot index them: the node raises [IndexError] and allocates
    nothing. *)
Theorem sameas_mask_of_wrong_length_raises re wd (prop : string) (S : node)
    s l sel s' groups :
  traverse_ast re wd S s = (Ok (VArr l), s') →
  read s' l = Some (ABool sel) →
  group_values (mol s') (analysis s') prop = Some groups →
  length sel ≠ alen groups →
  traverse_ast re wd (Node "sameas" [CScalar (SStr prop); CNode S]) s
  = (Raise IndexError, s').
Proof.
  intros Hrun Hread Hgroups Hlen.
  destruct (sameas_group_values re wd prop (VArr l) s' groups Hgroups)
    as (lv & Hlv & Hop).
  rewrite traverse_ast_lit_node, (bind_ok _ _ _ _ _ Hrun), Hop.
  unfold same_values.
  rewrite (bind_fetch_array _ _ _ _ Hlv).
  rewrite (bind_lift_ok _ _ _ groups) by done.
  rewrite (bind_fetch_array _ _ _ _ Hread).
  unfold bind, lift. simpl.
  by destruct (Nat.eqb_spec (length sel) (alen groups)).
Qed.

(** ** Conjunction and disjunction *)

Lemma read_untouched s s' l arr :
  untouched None s s' → read s l = Some arr → read s' l = Some arr.
Proof.
  intros (Hm & Ha & Hh). destruct l as [attr|k|key|n]; simpl.
  - by rewrite Hm.
  - by rewrite Hm.
  - by rewrite Ha.
  - by apply Hh.
Qed.

Lemma traverse_ast_lit_node2 re wd operation x A B s :
  traverse_ast re wd (Node operation [CScalar x; CNode A; CNode B]) s =
  bind (traverse_ast re wd A)
       (λ va, let* vb := traverse_ast re wd B in
              apply_operation re wd operation [VStr operation; VPy x; va; vb]) s.
Proof.
  simpl. unfold bind, ret.
  destruct (traverse_ast re wd A s) as [[va|e|] s1]; try done.
  by destruct (traverse_ast re wd B s1) as [[vb|e|] s2].
Qed.

(** X19. [A and B] and [A or B] on boolean masks: the left operand is
    evaluated first, the right one in the store the left one leaves, and
    the node returns, in a fresh array, the elementwise conjunction
    (disjunction) of the two masks.  The left mask is read after the right
    operand has run; evaluating the right operand cannot have changed it. *)
Theorem and_or_combine_masks_elementwise re wd (op : string)
    (f : bool → bool → bool) (A B : node) s la s1 ma lb s2 mb :
  (op = "and" ∧ f = andb) ∨ (op = "or" ∧ f = orb) →
  traverse_ast re wd A s = (Ok (VArr la), s1) →
  read s1 la = Some (ABool ma) →
  traverse_ast re wd B s1 = (Ok (VArr lb), s2) →
  read s2 lb = Some (ABool mb) →
  length ma = length mb →
  traverse_ast re wd (Node "logop" [CScalar (SStr op); CNode A; CNode B]) s
  = (Ok (VArr (LHeap (length (heap s2)))), extend s2 (ABool (zip_with f ma mb))).
Proof.
  intros Hop HA Hma HB Hmb Hlen.
  assert (read s2 la = Some (ABool ma)) as Hma2.
  { apply read_untouched with s1; [|done].
    pose proof (keeps_traverse_ast re wd None B s1) as H. by rewrite HB in H. }
  rewrite traverse_ast_lit_node2, (bind_ok _ _ _ _ _ HA), (bind_ok _ _ _ _ _ HB).
  destruct Hop as [[-> ->] | [-> ->]].
  - rewrite (logop_binary _ _ "and" And) by auto.
    rewrite (binary_arrays _ _ _ _ _ _ Hma2 Hmb). unfold np_binop. simpl.
    by rewrite bzip_same_length.
  - rewrite (logop_binary _ _ "or" Or) by auto.
    rewrite (binary_arrays _ _ _ _ _ _ Hma2 Hmb). unfold np_binop. simpl.
    by rewrite bzip_same_length.
Qed.

(** ** The spatial query, in full *)

(** A spatial query whose boolean source selects some atom, unfolded up to
    the call of the primitive and what follows it. *)
Lemma op_within_unfold wd operation c l src s rows mins maxs :
  read s l = Some (ABool src) →
  existsb id src = true →
  (frame (mol s) < numFrames (mol s))%nat →
  coords_frame (mol s) = Some rows →
  length src = length rows →
  reduce_rows fmin (select src rows) = Ok mins →
  reduce_rows fmax (select src rows) = Ok maxs →
  let zeros := replicate (numAtoms (mol s)) false in
  let n := length (heap s) in
  let called := counted (extend s (ABool zeros)) in
  op_within wd operation [VStr operation; VPy c; VArr l] s =
  match wd rows c (where_from id 0%nat src) mins maxs zeros with
  | Ok filled =>
      let s3 := write (LHeap n) (ABool filled) called in
      if String.eqb operation "exwithin" then
        match clear_at filled (OArr (ABool src)) with
        | Ok cleared => (Ok (VArr (LHeap n)), write (LHeap n) (ABool cleared) s3)
        | Raise e => (Raise e, s3)
        | Unmodelled => (Unmodelled, s3)
        end
      else (Ok (VArr (LHeap n)), s3)
  | Raise e => (Raise e, called)
  | Unmodelled => (Unmodelled, called)
  end.
Proof.
  intros Hread Hany Hframe Hrows Hlen Hmin Hmax zeros n called.
  assert (read (extend s (ABool zeros)) l = Some (ABool src)) as Hread1
    by (by apply read_extend_old).
  assert (l ≠ LHeap n) as Hl.
  { intros ->. apply read_heap_bound in Hread. unfold n in Hread. lia. }
  assert (n < length (heap called))%nat as Hn
    by (simpl; rewrite length_app; simpl; lia).
  unfold op_within.
  rewrite bind_get_mol, bind_alloc. fold zeros n.
  rewrite (bind_item _ 1 (VPy c)), (bind_item _ 2 (VArr l)) by done.
  rewrite (bind_fetch_array _ _ _ _ Hread1).
  rewrite (bind_lift_ok _ _ _ true) by (simpl; by rewrite Hany).
  cbn [negb].
  rewrite (bind_ok _ _ _ _ _
             (frame_rows_ok (extend s (ABool zeros)) rows Hframe Hrows)).
  rewrite (bind_lift_ok _ _ _ (select src rows))
    by (simpl; by rewrite Hlen, Nat.eqb_refl).
  rewrite (bind_lift_ok _ _ _ mins), (bind_lift_ok _ _ _ maxs) by done.
  rewrite (bind_lift_ok _ _ _ (where_from id 0%nat src)) by done.
  rewrite (bind_lift_ok _ _ _ c) by done.
  rewrite (bind_load_bools _ _ zeros) by apply read_extend_new.
  rewrite bind_count. fold called.
  unfold bind at 1. unfold lift at 1.
  destruct (wd rows c (where_from id 0%nat src) mins maxs zeros) as [filled|e|];
    [|done..].
  rewrite bind_store_at. cbv zeta.
  set (s3 := write (LHeap n) (ABool filled) called).
  assert (read s3 l = Some (ABool src)) as Hread3
    by (apply read_write_other; [unfold called; by rewrite read_counted|done]).
  assert (read s3 (LHeap n) = Some (ABool filled)) as Hmask3
    by (by apply read_write_same).
  destruct (String.eqb operation "exwithin"); [|done].
  rewrite (bind_fetch_array _ _ _ _ Hread3).
  rewrite (bind_load_bools _ _ _ _ Hmask3).
  unfold bind at 1. unfold lift at 1.
  by destruct (clear_at filled (OArr (ABool src))).
Qed.

(** X20. A [within] or [exwithin] node whose source selects some atom
    calls the distance primitive exactly once, whether that call returns or
    raises: on the frame's coordinates, the cutoff, the indices of the
    source atoms, the bounding box of their rows and the cleared mask.
    When that one call raises, the node raises the same exception. *)
Theorem nonempty_source_calls_primitive_once re wd operation (c : scalar)
    (S : node) s l src s' rows mins maxs :
  operation = "within" ∨ operation = "exwithin" →
  traverse_ast re wd S s = (Ok (VArr l), s') →
  read s' l = Some (ABool src) →
  existsb id src = true →
  (frame (mol s) < numFrames (mol s))%nat →
  coords_frame (mol s) = Some rows →
  length src = length rows →
  reduce_rows fmin (select src rows) = Ok mins →
  reduce_rows fmax (select src rows) = Ok maxs →
  let run := traverse_ast re wd (Node operation [CScalar c; CNode S]) s in
  let call := wd rows c (where_from id 0%nat src) mins maxs
                (replicate (numAtoms (mol s)) false) in
  wd_calls run.2 = Datatypes.S (wd_calls s') ∧
  ∀ e, call = Raise e → run.1 = Raise e.
Proof.
  intros Hop Hrun Hread Hany Hframe Hrows Hlen Hmin Hmax run call.
  subst run call.
  destruct (traverse_ast_frame _ _ _ _ _ _ Hrun) as [Hmol _].
  rewrite traverse_ast_lit_node, (bind_ok _ _ _ _ _ Hrun).
  assert (apply_operation re wd operation [VStr operation; VPy c; VArr l] s'
          = op_within wd operation [VStr operation; VPy c; VArr l] s') as ->
    by (by destruct Hop as [-> | ->]).
  rewrite (op_within_unfold wd operation c l src s' rows mins maxs)
    by (rewrite ?Hmol; done).
  cbv zeta. rewrite Hmol. split.
  - destruct (wd rows c _ mins maxs _) as [filled|e|]; [|done..].
    destruct (String.eqb operation "exwithin"); [|done].
    by destruct (clear_at filled (OArr (ABool src))).
  - intros e He. by rewrite He.
Qed.

(** X21. [exwithin] never selects a source atom.  This needs nothing of
    the primitive: whatever mask it fills, when the node returns a mask the
    entries of the atoms selected by the source are false. *)
Theorem exwithin_excludes_the_source re wd m a (c : scalar) (S : node)
    (src : list bool) (rows : list (list float)) (exclusive : list bool) :
  evaluate re wd m a S = Ok (Array (ABool src)) →
  length src = numAtoms m →
  (frame m < numFrames m)%nat →
  coords_frame m = Some rows →
  length rows = numAtoms m →
  evaluate re wd m a (Node "exwithin" [CScalar c; CNode S])
    = Ok (Array (ABool exclusive)) →
  ∀ i, src !! i = Some true → exclusive !! i = Some false.
Proof.
  intros HS Hsrc Hframe Hrows Hlen Hex i Hi.
  apply evaluate_array in HS as (l & s & Hrun & Hread).
  destruct (traverse_ast_frame _ _ _ _ _ _ Hrun) as [Hmol _]. simpl in Hmol.
  destruct (existsb id src) eqn:Hany;
    [|by apply existsb_id_false with (i := i) in Hany].
  destruct (reduce_rows_ok fmin (select src rows)) as [mins Hmin];
    [apply select_nonempty; [done|lia]|].
  destruct (reduce_rows_ok fmax (select src rows)) as [maxs Hmax];
    [apply select_nonempty; [done|lia]|].
  apply evaluate_array in Hex as (l2 & s2 & Hrun2 & Hread2).
  rewrite traverse_ast_lit_node, (bind_ok _ _ _ _ _ Hrun) in Hrun2.
  change (apply_operation re wd "exwithin" [VStr "exwithin"; VPy c; VArr l] s)
    with (op_within wd "exwithin" [VStr "exwithin"; VPy c; VArr l] s) in Hrun2.
  rewrite (op_within_unfold wd "exwithin" c l src s rows mins maxs) in Hrun2
    by (rewrite ?Hmol; try done; lia).
  cbv zeta in Hrun2.
  destruct (wd rows c _ mins maxs _) as [filled|e|]; [|done..].
  simpl in Hrun2.
  destruct (Nat.eqb_spec (length src) (length filled)) as [Hfl|]; [|done].
  injection Hrun2 as <- <-. simpl in Hread2.
  rewrite list_lookup_insert_eq in Hread2
    by (rewrite length_insert, length_app; simpl; lia).
  injection Hread2 as <-.
  destruct (lookup_lt_is_Some_2 filled i) as [b Hb].
  { rewrite <- Hfl. by apply lookup_lt_Some in Hi. }
  apply lookup_zip_with_Some. exists b, true.
  by rewrite andb_false_r.
Qed.

(** ** The entry point *)

(** X22. How [atomselect] ends, in both directions.  It returns exactly
    when the analysis is there (given, or computed by [analyze]), the
    selection parses and the traversal returns; the mask is then the value
    of the traversal, not a copy of it, and the tree comes with it exactly
    when [_return_ast] is set.  It raises a [RuntimeError] exactly when the
    analysis is there and the parser or the traversal raises: the error
    carries the selection and the original exception (and the tree, for the
    traversal).  An exception escapes as it is exactly when no analysis was
    supplied and [analyze], which runs outside both [try] blocks, raised
    it.  Whatever the traversal gives, the molecule and the analysis it
    used are unchanged. *)
Theorem atomselect_outcomes re wd parse (bonds : Type)
    (analyze : Molecule → bonds → outcome (gmap string ndarray))
    (m : Molecule) (selection : string) (b : bonds) (_debug : bool)
    (_analysis : option (gmap string ndarray)) (_return_ast : bool) :
  let result :=
    atomselect re wd parse bonds analyze m selection b _debug _analysis
      _return_ast in
  let available a :=
    match _analysis with
    | Some given => given = a
    | None => analyze m b = Ok a
    end in
  (∀ mask ast final,
     result = Returns mask ast final ↔
     ∃ a t, available a ∧ parse selection _debug = Ok t ∧
            traverse_ast re wd t (initial m a) = (Ok mask, final) ∧
            ast = (if _return_ast then Some t else None)) ∧
  (∀ msg final,
     result = RaisesRuntimeError msg final ↔
     (∃ a e, available a ∧ parse selection _debug = Raise e ∧
             msg = Failed_to_parse_selection selection e ∧ final = None) ∨
     (∃ a t e stopped,
        available a ∧ parse selection _debug = Ok t ∧
        traverse_ast re wd t (initial m a) = (Raise e, stopped) ∧
        msg = Atomselect_failed selection e t ∧ final = Some stopped)) ∧
  (∀ e, result = Raises e ↔ _analysis = None ∧ analyze m b = Raise e) ∧
  (∀ a t o final,
     available a → parse selection _debug = Ok t →
     traverse_ast re wd t (initial m a) = (o, final) →
     mol final = m ∧ analysis final = a).
Proof.
  intros result available. subst result. unfold atomselect.
  remember (match _analysis with
            | Some a => Ok a
            | None => analyze m b
            end) as given eqn:Egiven.
  assert (∀ a, available a ↔ given = Ok a) as Havail.
  { intros a. unfold available. subst given.
    destruct _analysis as [a'|]; [|done].
    split; [by intros ->|by intros [= ->]]. }
  split; [|split; [|split]].
  - intros mask ast final. split.
    + destruct given as [a|e|]; [|done..].
      destruct (parse selection _debug) as [t|e|]; [|done..].
      destruct (traverse_ast re wd t (initial m a)) as [[v|e|] f] eqn:Et;
        [|done..].
      destruct _return_ast; intros [= <- <- <-]; exists a, t;
        (split; [by apply Havail|done]).
    + intros (a & t & Ha%Havail & Hp & Ht & ->).
      rewrite Ha, Hp, Ht. by destruct _return_ast.
  - intros msg final. split.
    + destruct given as [a|e|]; [|done..].
      destruct (parse selection _debug) as [t|e|] eqn:Ep; [| |done].
      * destruct (traverse_ast re wd t (initial m a)) as [[v|e|] f] eqn:Et;
          [by destruct _return_ast| |done].
        intros [= <- <-]. right. exists a, t, e, f.
        split; [by apply Havail|done].
      * intros [= <- <-]. left. exists a, e. split; [by apply Havail|done].
    + intros [(a & e & Ha%Havail & Hp & -> & ->)
             |(a & t & e & stopped & Ha%Havail & Hp & Ht & -> & ->)].
      * by rewrite Ha, Hp.
      * by rewrite Ha, Hp, Ht.
  - intros e. split.
    + destruct given as [a|e'|] eqn:Eg.
      * destruct (parse selection _debug) as [t|e'|]; [|done..].
        destruct (traverse_ast re wd t (initial m a)) as [[v|e'|] f]; [|done..].
        by destruct _return_ast.
      * intros [= ->]. by destruct _analysis.
      * done.
    + intros [-> He]. subst given. by rewrite He.
  - intros a t o final _ _ Ht. by apply traverse_ast_frame in Ht.
Qed.

(** ** Operators, functions and numeric properties *)

(** A node that starts with a literal: the remaining children are resolved,
    then the operation is applied. *)
Lemma traverse_ast_op_rest re wd operation (x : scalar) rest s :
  traverse_ast re wd (Node operation (CScalar x :: rest)) s =
  bind (resolve re wd rest)
       (λ vs, apply_operation re wd operation (VStr operation :: VPy x :: vs)) s.
Proof.
  rewrite traverse_ast_resolve. unfold resolve. simpl. unfold bind, ret.
  by destruct (for_each _ rest s) as [[vs|e|] s'].
Qed.

Lemma traverse_ast_node1 re wd operation sub s :
  traverse_ast re wd (Node operation [CNode sub]) s =
  bind (traverse_ast re wd sub)
       (λ v, apply_operation re wd operation [VStr operation; v]) s.
Proof.
  simpl. unfold bind, ret.
  by destruct (traverse_ast re wd sub s) as [[v|e|] s'].
Qed.

Lemma traverse_ast_lit_node_lit re wd operation x sub y s :
  traverse_ast re wd (Node operation [CScalar x; CNode sub; CScalar y]) s =
  bind (traverse_ast re wd sub)
       (λ v, apply_operation re wd operation [VStr operation; VPy x; v; VPy y]) s.
Proof.
  simpl. unfold bind, ret.
  by destruct (traverse_ast re wd sub s) as [[v|e|] s'].
Qed.

(** X23. The operator of a [logop] node and the function of a [func] node
    are tested before any operand is read: a name the block does not know
    raises the block's [RuntimeError] ("Invalid logop", "Invalid function")
    however many operands follow, once those operands have been
    evaluated. *)
Theorem unknown_operator_or_function_raises re wd (tag op : string)
    (rest : list child) s vs s' :
  (tag = "logop" ∧ op ∉ ["and"; "or"; "not"]) ∨
  (tag = "func" ∧ op ∉ ["abs"; "sqr"; "sqrt"]) →
  resolve re wd rest s = (Ok vs, s') →
  traverse_ast re wd (Node tag (CScalar (SStr op) :: rest)) s
  = (Raise (RuntimeError (if String.eqb tag "logop" then Invalid_logop (VStr op)
                          else Invalid_function (VStr op))), s').
Proof.
  intros Htag Hres.
  rewrite traverse_ast_op_rest, (bind_ok _ _ _ _ _ Hres).
  destruct Htag as [[-> Hnot] | [-> Hnot]].
  - change (apply_operation re wd "logop" (VStr "logop" :: VStr op :: vs) s')
      with (op_logop (VStr "logop" :: VStr op :: vs) s').
    unfold op_logop. rewrite (bind_item _ 1 (VStr op)) by done.
    unfold tag_is, lift, bind.
    repeat match goal with
           | |- context [String.eqb op ?t] =>
               destruct (String.eqb_spec op t) as [->|_];
               [exfalso; apply Hnot; set_solver|]
           end.
    reflexivity.
  - change (apply_operation re wd "func" (VStr "func" :: VStr op :: vs) s')
      with (op_func (VStr "func" :: VStr op :: vs) s').
    unfold op_func. rewrite (bind_item _ 1 (VStr op)) by done.
    unfold tag_is, lift, bind.
    repeat match goal with
           | |- context [String.eqb op ?t] =>
               destruct (String.eqb_spec op t) as [->|_];
               [exfalso; apply Hnot; set_solver|]
           end.
    reflexivity.
Qed.

(** X24. A [comp] node unpacks its two operands before it looks at the
    operator.  With fewer than two operands it raises [IndexError] whatever
    the operator is; only with both operands present does an unknown
    operator raise the [RuntimeError] "Invalid comparison op". *)
Theorem comparison_reads_operands_before_operator re wd (op : string)
    (rest : list child) s vs s' :
  resolve re wd rest s = (Ok vs, s') →
  let run := traverse_ast re wd (Node "comp" (CScalar (SStr op) :: rest)) s in
  ((length vs < 2)%nat → run = (Raise IndexError, s')) ∧
  ((2 ≤ length vs)%nat → op ∉ ["="; "<"; ">"; "<="; ">="] →
   run = (Raise (RuntimeError (Invalid_comparison_op (VStr op))), s')).
Proof.
  intros Hres run. subst run.
  rewrite traverse_ast_op_rest, (bind_ok _ _ _ _ _ Hres).
  change (apply_operation re wd "comp" (VStr "comp" :: VStr op :: vs) s')
    with (op_comp (VStr "comp" :: VStr op :: vs) s').
  unfold op_comp. rewrite (bind_item _ 1 (VStr op)) by done.
  split.
  - intros Hlen. destruct vs as [|v [|w vs]]; simpl in Hlen; [done|done|lia].
  - intros Hlen Hnot. destruct vs as [|v [|w vs]]; simpl in Hlen; [lia|lia|].
    rewrite (bind_item _ 2 v), (bind_item _ 3 w) by done.
    unfold tag_is, lift, bind.
    repeat match goal with
           | |- context [String.eqb op ?t] =>
               destruct (String.eqb_spec op t) as [->|_];
               [exfalso; apply Hnot; set_solver|]
           end.
    reflexivity.
Qed.

(** The column of an axis is the column of the frame's rows. *)
Lemma coords_axis_of_frame m k rows :
  coords_frame m = Some rows → coords_axis m k = mapM (λ row, row !! k) rows.
Proof.
  unfold coords_frame, coords_axis. intros H. apply mapM_Some in H.
  induction H as [|row r rest rs Hr _ IH]; [done|].
  csimpl.
  assert (row !! k ≫= (λ fr, fr !! frame m) = r !! k) as ->;
    [|destruct (r !! k); [csimpl; unfold mbind in *; by rewrite IH|done]].
  apply mapM_Some in Hr. clear -Hr. revert k.
  induction Hr as [|fr v row r Hv _ IH]; intros [|k]; simpl; try done.
Qed.

Lemma mapM_lookup_columns (k : nat) (rows : list (list float)) :
  Forall (λ row, (k < length row)%nat) rows →
  ∃ column, mapM (λ row, row !! k) rows = Some column ∧
            length column = length rows ∧
            ∀ i row, rows !! i = Some row → row !! k = column !! i.
Proof.
  induction 1 as [|row rows Hk _ (column & Hc & Hlen & Hrel)].
  - exists []. by repeat split.
  - destruct (lookup_lt_is_Some_2 row k Hk) as [x Hx].
    exists (x :: column). csimpl. rewrite Hx. csimpl.
    unfold mbind in *. rewrite Hc. simpl.
    split; [done|]. split; [by rewrite Hlen|].
    intros [|i] row'; simpl; [by intros [= <-]|]. apply Hrel.
Qed.

(** X25. [x], [y] and [z] are the three columns of the current frame: the
    node returns the view [coords[:, k, frame]] itself, allocating nothing,
    and entry [i] of it is entry [k] of row [i] of the frame, the row the
    spatial queries measure distances with. *)
Theorem coordinates_are_columns_of_the_frame re wd m a (axis : string) (k : nat)
    (rows : list (list float)) :
  (axis, k) ∈ [("x", 0%nat); ("y", 1%nat); ("z", 2%nat)] →
  (frame m < numFrames m)%nat →
  coords_frame m = Some rows →
  Forall (λ row, length row = 3%nat) rows →
  traverse_ast re wd (Node "numprop" [CScalar (SStr axis)]) (initial m a)
    = (Ok (VArr (LAxis k)), initial m a) ∧
  ∃ column,
    evaluate re wd m a (Node "numprop" [CScalar (SStr axis)])
      = Ok (Array (AFloat column)) ∧
    length column = length rows ∧
    ∀ i row, rows !! i = Some row → row !! k = column !! i.
Proof.
  intros Haxis Hframe Hrows Hthree.
  destruct (mapM_lookup_columns k rows) as (column & Hc & Hlen & Hrel).
  { eapply Forall_impl; [exact Hthree|]. simpl. intros row ->.
    rewrite !elem_of_cons, elem_of_nil in Haxis.
    destruct Haxis as [[= _ ->]|[[= _ ->]|[[= _ ->]|[]]]]; lia. }
  pose proof (coords_axis_of_frame m k rows Hrows) as Haxisk.
  rewrite Hc in Haxisk.
  assert (traverse_ast re wd (Node "numprop" [CScalar (SStr axis)]) (initial m a)
          = (Ok (VArr (LAxis k)), initial m a)) as Hrun.
  { apply Nat.ltb_lt in Hframe.
    rewrite !elem_of_cons, elem_of_nil in Haxis.
    destruct Haxis as [[= -> ->]|[[= -> ->]|[[= -> ->]|[]]]];
      rewrite traverse_ast_literals1;
      cbn -[coords_axis Nat.ltb]; unfold coords_column; simpl mol;
      by rewrite Hframe, Haxisk. }
  split; [exact Hrun|].
  exists column. split; [|done].
  eapply evaluate_intro; [exact Hrun|]. simpl. by rewrite Haxisk.
Qed.

Lemma molpropmap_attr_exists m prop attr :
  molpropmap !! prop = Some attr → is_Some (getattr m attr).
Proof.
  unfold molpropmap. simpl. intros H.
  repeat (apply lookup_insert_Some in H as [[_ <-]|[_ H]]; [by eexists|]).
  by rewrite lookup_empty in H.
Qed.

Lemma molpropmap_no_axis prop attr :
  molpropmap !! prop = Some attr → prop ∉ ["x"; "y"; "z"].
Proof.
  intros H. rewrite !not_elem_of_cons. repeat split; try apply not_elem_of_nil;
    intros ->; vm_compute in H; discriminate H.
Qed.

Lemma numprop_molprop re wd (prop : string) s :
  prop ∉ ["x"; "y"; "z"] →
  apply_operation re wd "numprop" [VStr "numprop"; VStr prop] s
  = match molpropmap !! prop with
    | Some attr => (Ok (VArr (LAttr attr)), s)
    | None => (Raise (KeyError (VStr prop)), s)
    end.
Proof.
  intros Hnot.
  change (apply_operation re wd "numprop" [VStr "numprop"; VStr prop] s)
    with (op_numprop [VStr "numprop"; VStr prop] s).
  unfold op_numprop. rewrite (bind_item _ 1 (VStr prop)) by done.
  unfold tag_is, lift. unfold bind at 1.
  destruct (String.eqb_spec prop "x") as [->|_]; [exfalso; apply Hnot; set_solver|].
  unfold bind at 1.
  destruct (String.eqb_spec prop "y") as [->|_]; [exfalso; apply Hnot; set_solver|].
  unfold bind at 1.
  destruct (String.eqb_spec prop "z") as [->|_]; [exfalso; apply Hnot; set_solver|].
  unfold molpropmap_item, molpropmap_find, lift, bind.
  destruct (molpropmap !! prop) as [attr|] eqn:Hprop; [|done].
  unfold ret, mol_getattr.
  by destruct (molpropmap_attr_exists (mol s) prop attr Hprop) as [arr ->].
Qed.

(** X26. Any other name of a numeric property is looked up in
    [molpropmap]: a key returns the molecule's own array for the mapped
    attribute (the array itself, so [mass] is [mol.masses] and both
    [occupancy] and [beta] are [mol.beta]); a name that is no key raises
    [KeyError], not the [RuntimeError] of the property tests. *)
Theorem numprop_returns_the_molecule_array re wd (prop : string) s :
  prop ∉ ["x"; "y"; "z"] →
  traverse_ast re wd (Node "numprop" [CScalar (SStr prop)]) s
  = match molpropmap !! prop with
    | Some attr => (Ok (VArr (LAttr attr)), s)
    | None => (Raise (KeyError (VStr prop)), s)
    end.
Proof.
  intros Hnot. rewrite traverse_ast_literals1. by apply numprop_molprop.
Qed.

Lemma unary_on_array op s l a r :
  read s l = Some a →
  np_unop op a = Ok r →
  unary op (VArr l) s = (Ok (VArr (LHeap (length (heap s)))), extend s r).
Proof.
  intros Hread Hop. unfold unary.
  rewrite (bind_fetch_array _ _ _ _ Hread).
  rewrite (bind_lift_ok _ _ _ (RArr r)); [done|].
  assert (np_call op (OArr a) = Ok (RArr r)) as Hcall
    by (unfold np_call; cbn [as_array obind]; by rewrite Hop).
  by destruct op.
Qed.

Lemma wrap64_neg_neg x : in_int64 x = true → wrap64 (- wrap64 (- x)) = x.
Proof.
  intros H%in_int64_bounds.
  destruct (Z.eq_dec x (- 2 ^ 63)) as [->|Hne]; [reflexivity|].
  rewrite (wrap64_in_range (- x)) by lia.
  rewrite Z.opp_involutive. apply wrap64_in_range. lia.
Qed.

(** X27. Unary minus on an [int64] array is its own inverse: negating
    twice gives the values back, the least integer included (its negation
    wraps to itself).  Each negation allocates an array; the operand is
    left as it is. *)
Theorem double_negation_restores_integers re wd m a (S : node) (xs : list Z) :
  evaluate re wd m a S = Ok (Array (AInt xs)) →
  Forall (λ x, in_int64 x = true) xs →
  evaluate re wd m a (Node "uminus" [CNode (Node "uminus" [CNode S])])
  = Ok (Array (AInt xs)).
Proof.
  intros HS Hrange.
  apply evaluate_array in HS as (l & s & Hrun & Hread).
  set (once := AInt ((λ z, wrap64 (- z)) <$> xs)).
  assert (traverse_ast re wd (Node "uminus" [CNode S]) (initial m a)
          = (Ok (VArr (LHeap (length (heap s)))), extend s once)) as Hfirst.
  { rewrite traverse_ast_node1, (bind_ok _ _ _ _ _ Hrun).
    change (apply_operation re wd "uminus" [VStr "uminus"; VArr l] s)
      with (op_uminus [VStr "uminus"; VArr l] s).
    unfold op_uminus. rewrite (bind_item _ 1 (VArr l)) by done.
    by apply unary_on_array with (AInt xs). }
  eapply evaluate_intro; [|apply (read_extend_new (extend s once))].
  rewrite traverse_ast_node1, (bind_ok _ _ _ _ _ Hfirst).
  change (apply_operation re wd "uminus"
            [VStr "uminus"; VArr (LHeap (length (heap s)))] (extend s once))
    with (op_uminus [VStr "uminus"; VArr (LHeap (length (heap s)))]
            (extend s once)).
  unfold op_uminus.
  rewrite (bind_item _ 1 (VArr (LHeap (length (heap s))))) by done.
  rewrite (unary_on_array Neg (extend s once) _ once
             (AInt ((λ z, wrap64 (- z)) <$> ((λ z, wrap64 (- z)) <$> xs))))
    by (done || apply read_extend_new).
  do 3 f_equal. rewrite <- list_fmap_compose.
  rewrite <- (list_fmap_id xs) at 2.
  apply Forall_fmap_ext_1. eapply Forall_impl; [exact Hrange|].
  intros x Hx. by apply wrap64_neg_neg.
Qed.

(** X28. Division by zero.  Dividing a float array by the literal [0]
    raises nothing: every element is divided in IEEE arithmetic (giving an
    infinity or a NaN) and the quotients come back in a fresh array.
    Dividing one literal integer by the literal [0] is Python's own
    division and raises [ZeroDivisionError]. *)
Theorem division_by_zero_raises_only_between_literals re wd (S : node) s l
    (xs : list float) s' :
  traverse_ast re wd S s = (Ok (VArr l), s') →
  read s' l = Some (AFloat xs) →
  traverse_ast re wd
    (Node "mathop" [CScalar (SStr "/"); CNode S; CScalar (SInt 0)]) s
  = (Ok (VArr (LHeap (length (heap s')))),
     extend s' (AFloat ((λ x, x / 0)%float <$> xs))) ∧
  ∀ (p : Z) s0,
    traverse_ast re wd
      (Node "mathop" [CScalar (SStr "/"); CScalar (SInt p); CScalar (SInt 0)]) s0
    = (Raise ZeroDivisionError, s0).
Proof.
  intros Hrun Hread. split; [|done].
  rewrite traverse_ast_lit_node_lit, (bind_ok _ _ _ _ _ Hrun).
  change (apply_operation re wd "mathop"
            [VStr "mathop"; VStr "/"; VArr l; VInt 0] s')
    with (binary Div (VArr l) (VInt 0) s').
  unfold binary. rewrite (bind_fetch_array _ _ _ _ Hread).
  cbn [fetch]. rewrite bind_ret.
  rewrite (bind_lift_ok _ _ _ (RArr (AFloat ((λ x, x / 0)%float <$> xs))));
    [done|].
  unfold host_binop, np_binop. simpl. rewrite bzip_scalar_r.
  by rewrite float_of_Z_0.
Qed.

Lemma wrap64_abs x :
  in_int64 x = true →
  wrap64 (Z.abs x) = if x =? - 2 ^ 63 then - 2 ^ 63 else Z.abs x.
Proof.
  intros H%in_int64_bounds.
  destruct (Z.eqb_spec x (- 2 ^ 63)) as [->|Hne]; [reflexivity|].
  apply wrap64_in_range. lia.
Qed.

(** X29. [abs] of an [int64] array is the absolute value of every element
    in a fresh array, with one exception: the least integer has no
    positive counterpart and comes back unchanged, so the result of [abs]
    can hold a negative number. *)
Theorem abs_keeps_the_least_integer re wd m a (S : node) (xs : list Z) :
  evaluate re wd m a S = Ok (Array (AInt xs)) →
  Forall (λ x, in_int64 x = true) xs →
  evaluate re wd m a (Node "func" [CScalar (SStr "abs"); CNode S])
  = Ok (Array (AInt ((λ x, if x =? - 2 ^ 63 then - 2 ^ 63 else Z.abs x) <$> xs))).
Proof.
  intros HS Hrange.
  apply evaluate_array in HS as (l & s & Hrun & Hread).
  eapply evaluate_intro; [|apply (read_extend_new s)].
  rewrite traverse_ast_lit_node, (bind_ok _ _ _ _ _ Hrun).
  change (apply_operation re wd "func" [VStr "func"; VStr "abs"; VArr l] s)
    with (unary Abs (VArr l) s).
  rewrite (unary_on_array Abs s l (AInt xs)
             (AInt ((λ z, wrap64 (Z.abs z)) <$> xs))) by done.
  do 3 f_equal. apply Forall_fmap_ext_1. eapply Forall_impl; [exact Hrange|].
  intros x Hx. by apply wrap64_abs.
Qed.

(** X30. A comparison of an integer property with a literal integer
    selects by value: [resid < 3] is true exactly for the atoms whose
    [resid] is below [3], one entry per atom, and likewise for [=], [>],
    [<=] and [>=].  The property array is compared as it is, and the mask
    is the only array allocated. *)
Theorem comparison_with_number_selects_by_value re wd m a (op : string)
    (rel : Z → Z → bool) (prop attr : string) (values : list Z) (k : Z) :
  (op, rel) ∈ [("=", Z.eqb); ("<", Z.ltb); (">", Z.gtb); ("<=", Z.leb);
               (">=", Z.geb)] →
  molpropmap !! prop = Some attr →
  getattr m attr = Some (AInt values) →
  in_int64 k = true →
  evaluate re wd m a
    (Node "comp" [CScalar (SStr op); CNode (Node "numprop" [CScalar (SStr prop)]);
                  CScalar (SInt k)])
  = Ok (Array (ABool ((λ v, rel v k) <$> values))).
Proof.
  intros Hop Hprop Hattr Hk.
  assert (traverse_ast re wd (Node "numprop" [CScalar (SStr prop)]) (initial m a)
          = (Ok (VArr (LAttr attr)), initial m a)) as Hrun.
  { rewrite traverse_ast_literals1, numprop_molprop
      by (by apply molpropmap_no_axis with attr).
    by rewrite Hprop. }
  eapply evaluate_intro; [|apply (read_extend_new (initial m a))].
  rewrite traverse_ast_lit_node_lit, (bind_ok _ _ _ _ _ Hrun).
  assert (∀ o, binary o (VArr (LAttr attr)) (VInt k) (initial m a)
               = match np_binop o (AInt values) (AInt [k]) with
                 | Ok r => (Ok (VArr (LHeap 0)), extend (initial m a) r)
                 | Raise e => (Raise e, initial m a)
                 | Unmodelled => (Unmodelled, initial m a)
                 end) as Hbin.
  { intros o. unfold binary.
    rewrite (bind_fetch_array _ _ (AInt values)) by done.
    cbn [fetch]. rewrite bind_ret. unfold bind, lift, host_binop. simpl.
    rewrite Hk. simpl. by destruct (np_binop o (AInt values) (AInt [k])). }
  rewrite !elem_of_cons, elem_of_nil in Hop.
  destruct Hop as [[= -> ->]|[[= -> ->]|[[= -> ->]|[[= -> ->]|[[= -> ->]|[]]]]]].
  - change (apply_operation re wd "comp" _ (initial m a))
      with (binary Eq (VArr (LAttr attr)) (VInt k) (initial m a)).
    rewrite Hbin. unfold np_binop. simpl. by rewrite bzip_scalar_r.
  - change (apply_operation re wd "comp" _ (initial m a))
      with (binary Lt (VArr (LAttr attr)) (VInt k) (initial m a)).
    rewrite Hbin. unfold np_binop. simpl. by rewrite bzip_scalar_r.
  - change (apply_operation re wd "comp" _ (initial m a))
      with (binary Gt (VArr (LAttr attr)) (VInt k) (initial m a)).
    rewrite Hbin. unfold np_binop. simpl. by rewrite bzip_scalar_r.
  - change (apply_operation re wd "comp" _ (initial m a))
      with (binary Le (VArr (LAttr attr)) (VInt k) (initial m a)).
    rewrite Hbin. unfold np_binop. simpl. by rewrite bzip_scalar_r.
  - change (apply_operation re wd "comp" _ (initial m a))
      with (binary Ge (VArr (LAttr attr)) (VInt k) (initial m a)).
    rewrite Hbin. unfold np_binop. simpl. by rewrite bzip_scalar_r.
Qed.

(** ** Further runs on the small molecule *)

Ltac not_in_list :=
  let H := fresh in
  intros H;
  repeat (apply elem_of_cons in H as [H|H]; [discriminate H|]);
  by apply elem_of_nil in H.

Lemma failing_operand_on_mol5 :
  let s := initial mol5 analysis5 in
  let protein := Node "molecule" [CScalar (SStr "protein")] in
  let root := Node "func" [CScalar (SStr "sqrt");
                           CNode (Node "numprop" [CScalar (SStr "beta")])] in
  traverse_ast re_match_fragment within_distance_ref
    (Node "logop" [CScalar (SStr "and"); CNode protein; CNode root]) s
  = (Raise (RuntimeError (Negative_values_in_sqrt_call (VArr (LAttr "beta")))), s).
Proof.
  intros s protein root.
  exact (child_exception_aborts_node
           re_match_fragment within_distance_ref "logop"
           [CScalar (SStr "and"); CNode protein] root [] s
           [VStr "and"; VArr (LAnalysis "protein")] s _ s eq_refl eq_refl).
Defined.

Lemma unknown_operation_on_mol5 :
  let s := initial mol5 analysis5 in
  ("sameresidue" ∉ operations) ∧
  traverse_ast re_match_fragment within_distance_ref
    (Node "sameresidue" [CNode (Node "molecule" [CScalar (SStr "protein")])]) s
  = (Raise (RuntimeError (Invalid_operation "sameresidue")), s).
Proof.
  intros s.
  assert ("sameresidue" ∉ operations) as H by (unfold operations; not_in_list).
  split; [exact H|].
  exact (unknown_operation_raises_after_children
           re_match_fragment within_distance_ref "sameresidue"
           [CNode (Node "molecule" [CScalar (SStr "protein")])] s
           [VArr (LAnalysis "protein")] s H eq_refl).
Defined.

Lemma comparison_without_operands_on_mol5 :
  (traverse_ast re_match_fragment within_distance_ref (Node "comp" [])
     (initial mol5 analysis5)).1 = Raise IndexError.
Proof.
  apply node_without_operands_raises_IndexError.
  unfold operations. repeat constructor.
Defined.

Lemma unknown_keyword_on_mol5 :
  let s := initial mol5 analysis5 in
  ("solvent" ∉ molecule_keywords) ∧
  traverse_ast re_match_fragment within_distance_ref
    (Node "molecule" [CScalar (SStr "solvent")]) s
  = (Raise (RuntimeError (Invalid_molecule_selection (VStr "solvent"))), s).
Proof.
  intros s.
  assert ("solvent" ∉ molecule_keywords) as H
    by (unfold molecule_keywords; not_in_list).
  split; [exact H|].
  exact (unknown_molecule_keyword_raises
           re_match_fragment within_distance_ref "solvent" s H).
Defined.

Lemma waters_keyword_on_mol5 :
  let s := initial mol5 analysis5 in
  traverse_ast re_match_fragment within_distance_ref
    (Node "molecule" [CScalar (SStr "waters")]) s
  = (Ok (VArr (LAnalysis "waters")), s).
Proof.
  intros s.
  assert (("waters", "waters") ∈ analysis_keywords) as H
    by (unfold analysis_keywords; repeat constructor).
  exact (analysis_keyword_returns_stored_array
           re_match_fragment within_distance_ref "waters" "waters" s H).
Defined.

Lemma hydrogen_and_noh_on_mol5 :
  evaluate5 (Node "molecule" [CScalar (SStr "hydrogen")])
    = Ok (Array (ABool [false; true; false; true; false])) ∧
  evaluate5 (Node "molecule" [CScalar (SStr "noh")])
    = Ok (Array (ABool [true; false; true; false; true])).
Proof.
  exact (hydrogen_and_noh_are_complements
           re_match_fragment within_distance_ref mol5 analysis5
           ["C"; "H"; "C"; "H"; "O"] eq_refl).
Defined.

Lemma backbone_on_mol5 :
  evaluate5 (Node "molecule" [CScalar (SStr "backbone")])
  = Ok (Array (ABool [true; false; false; true; false])).
Proof.
  exact (backbone_is_union_of_backbones
           re_match_fragment within_distance_ref mol5 analysis5
           [true; false; false; true; false] [false; false; false; false; false]
           eq_refl eq_refl eq_refl).
Defined.

Lemma index_three_on_mol5 :
  ∃ mask,
    evaluate5 (Node "molprop_int_eq" [CScalar (SStr "index"); CScalar (SInt 3)])
      = Ok (Array (ABool mask)) ∧
    length mask = 5%nat ∧
    ∀ i, mask !! i = Some true ↔ (i < 5)%nat ∧ Z.of_nat i = 3.
Proof.
  exact (index_selects_one_position
           re_match_fragment within_distance_ref mol5 analysis5 3 eq_refl).
Defined.

Lemma unknown_property_on_mol5 :
  let s := initial mol5 analysis5 in
  molpropmap !! "atomtype" = None ∧
  traverse_ast re_match_fragment within_distance_ref
    (Node "molprop_str_eq" [CScalar (SStr "atomtype"); CScalar (SStr "CT")]) s
  = (Raise (RuntimeError (Invalid_molprop (VStr "atomtype"))), s).
Proof.
  intros s. split; [reflexivity|].
  refine (unknown_property_raises
            re_match_fragment within_distance_ref "molprop_str_eq" "atomtype"
            (SStr "CT") s (or_intror eq_refl) eq_refl _ _); discriminate.
Defined.

Lemma resname_list_on_mol5 :
  evaluate5 (Node "molprop_str_eq"
               [CScalar (SStr "resname"); CList [SStr "ALA"; SStr "HOH"]])
  = Ok (Array (ABool [true; true; false; false; true])).
Proof.
  exact (string_list_query_is_membership
           re_match_fragment within_distance_ref mol5 analysis5
           "resname" "resname" ["ALA"; "ALA"; "GLY"; "GLY"; "HOH"] "ALA" ["HOH"]
           eq_refl eq_refl).
Defined.

Lemma serial_modulo_on_mol5 :
  evaluate5 (Node "molprop_int_modulo"
               [CScalar (SStr "serial"); CScalar (SInt 2); CScalar (SInt 0)])
    = Ok (Array (ABool [false; true; false; true; false])) ∧
  evaluate5 (Node "molprop_int_modulo"
               [CScalar (SStr "serial"); CScalar (SInt 0); CScalar (SInt 0)])
    = Ok (Array (ABool [true; true; true; true; true])).
Proof.
  split.
  - exact (modulo_node_compares_remainders
             re_match_fragment within_distance_ref mol5 analysis5
             "serial" "serial" [1; 2; 3; 4; 5] 2 0 eq_refl eq_refl eq_refl eq_refl).
  - exact (modulo_node_compares_remainders
             re_match_fragment within_distance_ref mol5 analysis5
             "serial" "serial" [1; 2; 3; 4; 5] 0 0 eq_refl eq_refl eq_refl eq_refl).
Defined.

Lemma power_operator_on_mol5 :
  let s := initial mol5 analysis5 in
  traverse_ast re_match_fragment within_distance_ref
    (Node "mathop" [CScalar (SStr "^"); CScalar (SInt 2); CScalar (SInt 3)]) s
  = (Raise (UnboundLocalError "fn"), s).
Proof.
  intros s.
  assert ("^" ∉ ["+"; "-"; "*"; "/"]) as H by not_in_list.
  exact (unknown_arithmetic_operator_is_unbound
           re_match_fragment within_distance_ref "^" (SInt 2) (SInt 3) s H).
Defined.

Lemma sqrt_of_resid_on_mol5 :
  let s := initial mol5 analysis5 in
  traverse_ast re_match_fragment within_distance_ref
    (Node "func" [CScalar (SStr "sqrt");
                  CNode (Node "numprop" [CScalar (SStr "resid")])]) s
  = (Ok (VArr (LHeap 0)),
     extend s (AFloat [1; 1; PrimFloat.sqrt 2; PrimFloat.sqrt 2;
                       PrimFloat.sqrt 3]%float)).
Proof.
  intros s.
  refine (sqrt_without_negative_returns_roots
            re_match_fragment within_distance_ref
            (Node "numprop" [CScalar (SStr "resid")]) s (LAttr "resid")
            [1; 1; 2; 2; 3] s eq_refl eq_refl _ eq_refl).
  repeat constructor.
Defined.

Lemma same_resid_on_mol5 :
  let S := Node "molprop_int_eq" [CScalar (SStr "index"); CScalar (SInt 2)] in
  evaluate5 S = Ok (Array (ABool [false; false; true; false; false])) ∧
  ∃ mask,
    evaluate5 (Node "sameas" [CScalar (SStr "resid"); CNode S])
      = Ok (Array (ABool mask)) ∧
    length mask = 5%nat ∧
    ∀ i, mask !! i = Some true ↔
         ∃ g j, [1; 1; 2; 2; 3] !! i = Some g ∧ [1; 1; 2; 2; 3] !! j = Some g ∧
                [false; false; true; false; false] !! j = Some true.
Proof.
  intros S.
  assert (evaluate5 S = Ok (Array (ABool [false; false; true; false; false]))) as H
    by (vm_compute; reflexivity).
  split; [exact H|].
  exact (sameas_selects_atoms_sharing_a_group
           re_match_fragment within_distance_ref mol5 analysis5 "resid" S
           [false; false; true; false; false] [1; 1; 2; 2; 3] H eq_refl eq_refl).
Defined.

Lemma same_chain_on_mol5 :
  let S := Node "molprop_int_eq" [CScalar (SStr "index"); CScalar (SInt 4)] in
  evaluate5 S = Ok (Array (ABool [false; false; false; false; true])) ∧
  ∃ mask,
    evaluate5 (Node "sameas" [CScalar (SStr "chain"); CNode S])
      = Ok (Array (ABool mask)) ∧
    (∀ i, [false; false; false; false; true] !! i = Some true →
          mask !! i = Some true) ∧
    (existsb id [false; false; false; false; true] = false →
     ∀ i, mask !! i ≠ Some true).
Proof.
  intros S.
  assert (evaluate5 S = Ok (Array (ABool [false; false; false; false; true]))) as H
    by (vm_compute; reflexivity).
  split; [exact H|].
  exact (sameas_contains_its_selection
           re_match_fragment within_distance_ref mol5 analysis5 "chain" S
           [false; false; false; false; true] (AStr ["A"; "A"; "A"; "A"; "B"])
           H eq_refl I eq_refl).
Defined.

Lemma same_color_on_mol5 :
  let s := initial mol5 analysis5 in
  traverse_ast re_match_fragment within_distance_ref
    (Node "sameas" [CScalar (SStr "color");
                    CNode (Node "molecule" [CScalar (SStr "protein")])]) s
  = (Raise (RuntimeError (Invalid_property (VStr "color"))), s).
Proof.
  intros s.
  refine (sameas_unknown_property_raises
            re_match_fragment within_distance_ref "color"
            (Node "molecule" [CScalar (SStr "protein")]) s
            (VArr (LAnalysis "protein")) s _ eq_refl _ eq_refl); discriminate.
Defined.

Lemma same_fragment_with_short_fragments :
  let s := initial mol5 analysis5_short_fragments in
  traverse_ast re_match_fragment within_distance_ref
    (Node "sameas" [CScalar (SStr "fragment");
                    CNode (Node "molecule" [CScalar (SStr "protein")])]) s
  = (Raise IndexError, s).
Proof.
  intros s.
  refine (sameas_mask_of_wrong_length_raises
            re_match_fragment within_distance_ref "fragment"
            (Node "molecule" [CScalar (SStr "protein")]) s
            (LAnalysis "protein") [true; true; true; true; false] s
            (AInt [0; 0; 1]) eq_refl eq_refl eq_refl _).
  simpl. lia.
Defined.

Lemma protein_and_noh_on_mol5 :
  let s := initial mol5 analysis5 in
  let noh := ABool [true; false; true; false; true] in
  traverse_ast re_match_fragment within_distance_ref
    (Node "logop" [CScalar (SStr "and");
                   CNode (Node "molecule" [CScalar (SStr "protein")]);
                   CNode (Node "molecule" [CScalar (SStr "noh")])]) s
  = (Ok (VArr (LHeap 1)),
     extend (extend s noh) (ABool [true; false; true; false; false])).
Proof.
  intros s noh.
  exact (and_or_combine_masks_elementwise
           re_match_fragment within_distance_ref "and" andb
           (Node "molecule" [CScalar (SStr "protein")])
           (Node "molecule" [CScalar (SStr "noh")])
           s (LAnalysis "protein") s [true; true; true; true; false]
           (LHeap 0) (extend s noh) [true; false; true; false; true]
           (or_introl (conj eq_refl eq_refl)) eq_refl eq_refl eq_refl eq_refl
           eq_refl).
Defined.

Lemma within_with_a_string_cutoff_on_mol5 :
  let s := initial mol5 analysis5 in
  let S := Node "molprop_int_eq" [CScalar (SStr "index"); CScalar (SInt 1)] in
  let run := traverse_ast re_match_fragment within_distance_ref
               (Node "within" [CScalar (SStr "near"); CNode S]) s in
  within_distance_ref
    [[0; 0; 0]; [1; 0; 0]; [2; 0; 0]; [3; 0; 0]; [10; 0; 0]]%float
    (SStr "near") [1%nat] [1; 0; 0]%float [1; 0; 0]%float
    [false; false; false; false; false] = Raise TypeError ∧
  wd_calls run.2 = 1%nat ∧
  run.1 = Raise TypeError.
Proof.
  intros s S.
  pose (s' := (traverse_ast re_match_fragment within_distance_ref S s).2).
  assert (traverse_ast re_match_fragment within_distance_ref S s
          = (Ok (VArr (LHeap 1)), s')) as Hrun by (vm_compute; reflexivity).
  assert (read s' (LHeap 1) = Some (ABool [false; true; false; false; false]))
    as Hread by (vm_compute; reflexivity).
  pose proof (nonempty_source_calls_primitive_once
                re_match_fragment within_distance_ref "within" (SStr "near") S s
                (LHeap 1) [false; true; false; false; false] s' _
                [1; 0; 0]%float [1; 0; 0]%float
                (or_introl eq_refl) Hrun Hread eq_refl (le_n 1)
                coords_frame_mol5 eq_refl eq_refl eq_refl) as [Hcount Hraise].
  split; [reflexivity|]. split; [exact Hcount|exact (Hraise TypeError eq_refl)].
Defined.

Lemma exwithin_of_index_on_mol5 :
  let S := Node "molprop_int_eq" [CScalar (SStr "index"); CScalar (SInt 1)] in
  evaluate5 (Node "exwithin" [CScalar (SFloat 1.5); CNode S])
    = Ok (Array (ABool [true; false; true; false; false])) ∧
  ∀ i, [false; true; false; false; false] !! i = Some true →
       [true; false; true; false; false] !! i = Some false.
Proof.
  intros S.
  assert (evaluate5 S = Ok (Array (ABool [false; true; false; false; false])))
    as HS by (vm_compute; reflexivity).
  assert (evaluate5 (Node "exwithin" [CScalar (SFloat 1.5); CNode S])
          = Ok (Array (ABool [true; false; true; false; false]))) as Hex
    by (vm_compute; reflexivity).
  split; [exact Hex|].
  exact (exwithin_excludes_the_source
           re_match_fragment within_distance_ref mol5 analysis5 (SFloat 1.5) S
           [false; true; false; false; false] _
           [true; false; true; false; false]
           HS eq_refl (le_n 1) coords_frame_mol5 eq_refl Hex).
Defined.

Lemma xor_operator_on_mol5 :
  let s := initial mol5 analysis5 in
  traverse_ast re_match_fragment within_distance_ref
    (Node "logop" [CScalar (SStr "xor");
                   CNode (Node "molecule" [CScalar (SStr "protein")]);
                   CNode (Node "molecule" [CScalar (SStr "waters")])]) s
  = (Raise (RuntimeError (Invalid_logop (VStr "xor"))), s).
Proof.
  intros s.
  assert ("xor" ∉ ["and"; "or"; "not"]) as H by not_in_list.
  exact (unknown_operator_or_function_raises
           re_match_fragment within_distance_ref "logop" "xor"
           [CNode (Node "molecule" [CScalar (SStr "protein")]);
            CNode (Node "molecule" [CScalar (SStr "waters")])] s
           [VArr (LAnalysis "protein"); VArr (LAnalysis "waters")] s
           (or_introl (conj eq_refl H)) eq_refl).
Defined.

Lemma unequal_operator_on_mol5 :
  let s := initial mol5 analysis5 in
  traverse_ast re_match_fragment within_distance_ref
    (Node "comp" [CScalar (SStr "!=");
                  CNode (Node "numprop" [CScalar (SStr "beta")]);
                  CScalar (SFloat 1)]) s
  = (Raise (RuntimeError (Invalid_comparison_op (VStr "!="))), s).
Proof.
  intros s.
  assert ("!=" ∉ ["="; "<"; ">"; "<="; ">="]) as H by not_in_list.
  exact (proj2 (comparison_reads_operands_before_operator
                  re_match_fragment within_distance_ref "!="
                  [CNode (Node "numprop" [CScalar (SStr "beta")]);
                   CScalar (SFloat 1)] s
                  [VArr (LAttr "beta"); VFloat 1] s eq_refl)
               (le_n 2) H).
Defined.

Lemma x_column_on_mol5 :
  traverse_ast re_match_fragment within_distance_ref
    (Node "numprop" [CScalar (SStr "x")]) (initial mol5 analysis5)
    = (Ok (VArr (LAxis 0)), initial mol5 analysis5) ∧
  ∃ column,
    evaluate5 (Node "numprop" [CScalar (SStr "x")]) = Ok (Array (AFloat column)) ∧
    length column = 5%nat ∧
    ∀ i row,
      [[0; 0; 0]; [1; 0; 0]; [2; 0; 0]; [3; 0; 0]; [10; 0; 0]]%float !! i
        = Some row →
      row !! 0%nat = column !! i.
Proof.
  assert (("x", 0%nat) ∈ [("x", 0%nat); ("y", 1%nat); ("z", 2%nat)]) as H
    by apply list_elem_of_here.
  refine (coordinates_are_columns_of_the_frame
            re_match_fragment within_distance_ref mol5 analysis5 "x" 0
            [[0; 0; 0]; [1; 0; 0]; [2; 0; 0]; [3; 0; 0]; [10; 0; 0]]%float
            H (le_n 1) coords_frame_mol5 _).
  repeat constructor.
Defined.

Lemma mass_property_on_mol5 :
  let s := initial mol5 analysis5 in
  traverse_ast re_match_fragment within_distance_ref
    (Node "numprop" [CScalar (SStr "mass")]) s
  = (Ok (VArr (LAttr "masses")), s).
Proof.
  intros s.
  assert ("mass" ∉ ["x"; "y"; "z"]) as H by not_in_list.
  exact (numprop_returns_the_molecule_array
           re_match_fragment within_distance_ref "mass" s H).
Defined.

Lemma double_negated_resid_on_mol5 :
  evaluate5 (Node "uminus"
               [CNode (Node "uminus"
                         [CNode (Node "numprop" [CScalar (SStr "resid")])])])
  = Ok (Array (AInt [1; 1; 2; 2; 3])).
Proof.
  refine (double_negation_restores_integers
            re_match_fragment within_distance_ref mol5 analysis5
            (Node "numprop" [CScalar (SStr "resid")]) [1; 1; 2; 2; 3]
            eq_refl _).
  repeat constructor.
Defined.

Lemma beta_divided_by_zero_on_mol5 :
  let s := initial mol5 analysis5 in
  traverse_ast re_match_fragment within_distance_ref
    (Node "mathop" [CScalar (SStr "/");
                    CNode (Node "numprop" [CScalar (SStr "beta")]);
                    CScalar (SInt 0)]) s
  = (Ok (VArr (LHeap 0)),
     extend s (AFloat [nan; neg_infinity; neg_infinity; infinity; infinity])) ∧
  traverse_ast re_match_fragment within_distance_ref
    (Node "mathop" [CScalar (SStr "/"); CScalar (SInt 1); CScalar (SInt 0)]) s
  = (Raise ZeroDivisionError, s).
Proof.
  intros s.
  pose proof (division_by_zero_raises_only_between_literals
                re_match_fragment within_distance_ref
                (Node "numprop" [CScalar (SStr "beta")]) s (LAttr "beta")
                [0; -1; -1; 2; 2]%float s eq_refl eq_refl) as [Harr Hlit].
  split; [exact Harr|exact (Hlit 1 s)].
Defined.

Lemma abs_of_scaled_resid_on_mol5 :
  let S := Node "mathop" [CScalar (SStr "*");
                          CNode (Node "numprop" [CScalar (SStr "resid")]);
                          CScalar (SInt (- 2 ^ 62))] in
  evaluate5 S = Ok (Array (AInt [- 2 ^ 62; - 2 ^ 62; - 2 ^ 63; - 2 ^ 63; 2 ^ 62])) ∧
  evaluate5 (Node "func" [CScalar (SStr "abs"); CNode S])
  = Ok (Array (AInt [2 ^ 62; 2 ^ 62; - 2 ^ 63; - 2 ^ 63; 2 ^ 62])).
Proof.
  intros S.
  assert (evaluate5 S
          = Ok (Array (AInt [- 2 ^ 62; - 2 ^ 62; - 2 ^ 63; - 2 ^ 63; 2 ^ 62])))
    as HS by (vm_compute; reflexivity).
  split; [exact HS|].
  refine (abs_keeps_the_least_integer
            re_match_fragment within_distance_ref mol5 analysis5 S
            [- 2 ^ 62; - 2 ^ 62; - 2 ^ 63; - 2 ^ 63; 2 ^ 62] HS _).
  repeat constructor.
Defined.

Lemma resid_below_three_on_mol5 :
  evaluate5 (Node "comp" [CScalar (SStr "<");
                          CNode (Node "numprop" [CScalar (SStr "resid")]);
                          CScalar (SInt 3)])
  = Ok (Array (ABool [true; true; true; true; false])).
Proof.
  assert (("<", Z.ltb) ∈ [("=", Z.eqb); ("<", Z.ltb); (">", Z.gtb);
                          ("<=", Z.leb); (">=", Z.geb)]) as H
    by (apply list_elem_of_further, list_elem_of_here).
  exact (comparison_with_number_selects_by_value
           re_match_fragment within_distance_ref mol5 analysis5 "<" Z.ltb
           "resid" "resid" [1; 1; 2; 2; 3] 3 H eq_refl eq_refl eq_refl).
Defined.

Lemma atomselect_on_mol5 :
  let run selection given return_ast :=
    atomselect re_match_fragment within_distance_ref parse5 unit analyze5
      mol5 selection tt false given return_ast in
  let s := initial mol5 analysis5 in
  run "protein" None true
    = Returns (VArr (LAnalysis "protein"))
        (Some (Node "molecule" [CScalar (SStr "protein")])) s ∧
  run "protein and" (Some analysis5) false
    = RaisesRuntimeError (Failed_to_parse_selection "protein and" ValueError)
        None ∧
  ∃ tree,
    parse5 "sqrt(beta) < 1" false = Ok tree ∧
    run "sqrt(beta) < 1" None false
    = RaisesRuntimeError
        (Atomselect_failed "sqrt(beta) < 1"
           (RuntimeError (Negative_values_in_sqrt_call (VArr (LAttr "beta"))))
           tree)
        (Some s).
Proof.
  intros run s. split; [|split].
  - apply (atomselect_outcomes
             re_match_fragment within_distance_ref parse5 unit analyze5
             mol5 "protein" tt false None true).
    exists analysis5, (Node "molecule" [CScalar (SStr "protein")]).
    split; [reflexivity|]. split; [reflexivity|]. split; reflexivity.
  - apply (atomselect_outcomes
             re_match_fragment within_distance_ref parse5 unit analyze5
             mol5 "protein and" tt false (Some analysis5) false).
    left. exists analysis5, ValueError.
    split; [reflexivity|]. split; [reflexivity|]. split; reflexivity.
  - eexists. split; [reflexivity|].
    apply (atomselect_outcomes
             re_match_fragment within_distance_ref parse5 unit analyze5
             mol5 "sqrt(beta) < 1" tt false None false).
    right. eexists analysis5, _, _, s.
    split; [reflexivity|]. split; [reflexivity|]. split; [|split; reflexivity].
    reflexivity.
Defined.
